(** * BitBlasting, A1/q1: the synthetic transaction generator

    A shallow embedding of [src/A1/q1/generate_transactions.py] and the
    properties of its five stages: the item universe loader
    ([load_items]), the cluster builder ([build_clusters]), the length
    chooser ([choose_length]), the transaction synthesizer
    ([generate_transaction]) and the dataset assembler (the loop of
    [main]).

    The second part embeds the graph dataset converter of A1/q2,
    [src/A1/q2/convert_dataset.py] (the parser, the label maps and the
    two writers), with [count_graphs] of [src/A1/q2/run_experiments.py].

    Conventions of the embedding:
    - Python [int] is [Z]; [len(l)] is [len l : Z].
    - Python [str] is [string]; texts are taken to be ASCII, so the
      white space of [str.split()] and [int()] is the ASCII white space.
    - Python [float] is the binary64 [float] of the kernel.
    - Python [set] is [gset]; only membership and size are ever observed.
    - [random.Random] is an interface ([Random]) together with the part
      of its documented behaviour the program relies on ([RandomLaws]).
    - A computation that threads the random source and may raise is a
      function [rng -> res (A * rng)]; a [while] loop takes fuel and
      answers [OutOfFuel] when the fuel does not suffice. *)

From Stdlib Require Import ZArith Uint63 Floats.PrimFloat Ascii String.
From stdpp Require Import gmap strings list pretty sorting.

Local Open Scope string_scope.
Local Open Scope list_scope.
Local Open Scope Z_scope.

#[local] Set Warnings "-inexact-float,-clear-no-such-hyp".

(** ** Results of computations *)

Inductive exn := ValueError | IndexError.

Inductive res (A : Type) : Type :=
| Ret (a : A)
| Exc (e : exn)
| OutOfFuel.
Arguments Ret {A} a.
Arguments Exc {A} e.
Arguments OutOfFuel {A}.

Definition len {A} (l : list A) : Z := Z.of_nat (length l).

(** ** Text: [str.replace], [str.split], [str.join], [int] *)

Module Text.

(** The ASCII characters for which [str.isspace] holds: TAB, LF, VT, FF,
  CR, the separators FS, GS, RS, US and the space. *)
Definition isspace (c : ascii) : bool :=
let k := nat_of_ascii c in
((9 <=? k)%nat && (k <=? 13)%nat) || ((28 <=? k)%nat && (k <=? 32)%nat).

(** [s.replace(",", " ")] *)
Fixpoint replace_commas (s : string) : string :=
match s with
| EmptyString => EmptyString
| String c s' =>
    String (if Ascii.eqb c "," then " "%char else c) (replace_commas s')
end.

(** [s.split()]: the maximal runs of characters that are not white space,
  left to right. [cur] is the run being read, in reverse. *)
Fixpoint split_go (cur : string) (s : string) : list string :=
match s with
| EmptyString =>
    match cur with EmptyString => [] | _ => [String.rev cur] end
| String c s' =>
    if isspace c then
      match cur with
      | EmptyString => split_go EmptyString s'
      | _ => String.rev cur :: split_go EmptyString s'
      end
    else split_go (String c cur) s'
end.

Definition split (s : string) : list string := split_go EmptyString s.

(** [sep.join(l)] *)
Fixpoint join (sep : string) (l : list string) : string :=
match l with
| [] => ""
| [x] => x
| x :: l' => x +:+ sep +:+ join sep l'
end.

(** [s.strip()] *)
Fixpoint lstrip (s : string) : string :=
match s with
| String c s' => if isspace c then lstrip s' else s
| EmptyString => EmptyString
end.

Definition strip (s : string) : string :=
String.rev (lstrip (String.rev (lstrip s))).

Definition digit (c : ascii) : option Z :=
let k := nat_of_ascii c in
if ((48 <=? k)%nat && (k <=? 57)%nat)%bool then Some (Z.of_nat k - 48)
else None.

(** The digits of a decimal literal: one or more digits, where a single
  underscore may stand between two digits. [acc] is the value read so
  far, [prev] tells whether the previous character was a digit. *)
Fixpoint digits_go (acc : Z) (prev : bool) (s : string) : option Z :=
match s with
| EmptyString => if prev then Some acc else None
| String c s' =>
    match digit c with
    | Some d => digits_go (10 * acc + d) true s'
    | None =>
        if (Ascii.eqb c "_" && prev)%bool then
          match s' with
          | String c' _ =>
              if digit c' is Some _ then digits_go acc false s' else None
          | EmptyString => None
          end
        else None
    end
end.

(** [int(s)] for a [str] argument, base 10: surrounding white space is
  dropped, one sign is allowed. [None] stands for [ValueError]. *)
Definition py_int (s : string) : option Z :=
match strip s with
| String "+" s' => digits_go 0 false s'
| String "-" s' => Z.opp <$> digits_go 0 false s'
| s' => digits_go 0 false s'
end.

End Text.

(** ** Computations over the random source *)

(** The interface of [random.Random] as far as the generator uses it:
    [Random(seed)], [random()], [randint(a, b)], [sample(population, k)]
    and [choices(population, weights=w, k=k)]. The last three raise on
    arguments outside their domain. *)
Class Random (rng : Type) : Type := {
  rng_seed : Z → rng;
  rng_random : rng → float * rng;
  rng_randint : Z → Z → rng → res (Z * rng);
  rng_sample : ∀ A : Type, list A → Z → rng → res (list A * rng);
  rng_choices : ∀ A : Type, list A → list float → Z → rng → res (list A * rng);
}.
Arguments rng_sample {rng _ A} _ _ _.
Arguments rng_choices {rng _ A} _ _ _ _.

Definition M (rng A : Type) : Type := rng → res (A * rng).

Definition ret {rng A} (a : A) : M rng A := λ s, Ret (a, s).

Definition bind {rng A B} (m : M rng A) (k : A → M rng B) : M rng B :=
  λ s, match m s with
       | Ret (a, s') => k a s'
       | Exc e => Exc e
       | OutOfFuel => OutOfFuel
       end.

Definition raise {rng A} (e : exn) : M rng A := λ _, Exc e.

Notation "'let*' x ':=' m 'in' k" := (bind m (λ x, k))
  (at level 10, x pattern, m at level 100, k at level 200,
   format "'[v' 'let*'  x  ':='  m  'in' '/' k ']'").

(** [while cond: body], on a loop state [st]. *)
Fixpoint while {rng St} (fuel : nat) (cond : St → bool) (body : St → M rng St)
    (st : St) : M rng St :=
  if cond st then
    match fuel with
    | O => λ _, OutOfFuel
    | S fuel' => let* st' := body st in while fuel' cond body st'
    end
  else ret st.

(** [for _ in range(k): body], on a loop state [st]. *)
Fixpoint repeat_loop {rng St} (k : nat) (body : St → M rng St) (st : St)
    : M rng St :=
  match k with
  | O => ret st
  | S k' => let* st' := body st in repeat_loop k' body st'
  end.

(** [l[0]] *)
Definition first {rng A} (l : list A) : M rng A :=
  match l with
  | x :: _ => ret x
  | [] => raise IndexError
  end.

(** [float(z)] for a non-negative [int] that fits a machine word. *)
Definition float_of_Z (z : Z) : float := PrimFloat.of_uint63 (Uint63.of_Z z).

(** [range(n)] as the list of its values. *)
Definition range (n : nat) : list Z := Z.of_nat <$> seq 0 n.

(** ** The generator *)

(** The file system: the text of every existing path. Reading an existing
    path and writing any path succeed; directories and unreadable files
    are not represented. *)
Abbreviation filesystem := (gmap string string).

(** The loop of [load_items]: keep a token the first time it is seen. *)
Definition load_step (st : list string * gset string) (t : string)
    : list string * gset string :=
  let '(items, seen) := st in
  if decide (t ∈ seen) then (items, seen)
  else (items ++ [t], {[t]} ∪ seen).

Definition load_items (fs : filesystem) (spec : string) : list string :=
  let tokens :=
    match fs !! spec with
    | Some text => Text.split (Text.replace_commas text)
    | None => Text.split (Text.replace_commas spec)
    end in
  (foldl load_step ([], ∅) tokens).1.

Record outcome := Outcome {
  exit_code : Z;
  stdout : list string;
  files : filesystem;
}.

(** The state of the assembler's loop in [main]. *)
Record assembly := Assembly {
  seen : gset (list string);
  transactions : list (list string);
  attempts : Z;
}.

Definition newline : string := String "010" "".

Definition usage_msg : string :=
  "Usage: python3 generate_transactions.py <universal_itemset> <num_transactions> <output_file>".
Definition count_msg : string := "Error: <num_transactions> must be an integer.".
Definition empty_msg : string := "Error: universal_itemset is empty.".
Definition warning_msg (got requested : Z) : string :=
  "Warning: generated " +:+ pretty got +:+ " unique transactions out of requested "
  +:+ pretty requested +:+ ".".
Definition wrote_msg (got : Z) (out_path : string) : string :=
  "Wrote " +:+ pretty got +:+ " transactions to " +:+ out_path.

(** What the [with open(out_path, "w")] block writes. *)
Definition serialize (txs : list (list string)) : string :=
  foldr (λ tx rest, Text.join " " tx +:+ newline +:+ rest) "" txs.

(** Lines 73-74: the bounds between which the seeding pick count is
    drawn. *)
Definition min_pick (cluster : list string) : Z :=
  if 2 <=? len cluster then 2 else 1.

Definition max_pick (cluster : list string) (length : Z) : Z :=
  Z.max (min_pick cluster) (Z.min (len cluster) (Z.max 2 (length / 2))).

Section Generator.
Context {rng : Type} `{!Random rng}.
(** [x ** y] on floats. *)
Variable fpow : float → float → float.

Definition random : M rng float := λ s, let '(r, s') := rng_random s in Ret (r, s').

(** [rng.choices(population, weights=w, k=1)[0]] *)
Definition draw {A} (population : list A) (w : list float) : M rng A :=
  let* drawn := rng_choices population w 1 in first drawn.

Definition build_clusters (items : list string)
    : M rng (list (list string) * list float) :=
  let n := len items in
  if n <? 4 then ret ([], [])
  else
    let k := Z.max 3 (Z.min 10 (n / 5)) in
    let* clusters :=
      repeat_loop (Z.to_nat k) (λ clusters,
        let min_sz := 3 in
        let max_sz := Z.min 12 n in
        let max_sz := if max_sz <? min_sz then min_sz else max_sz in
        let* sz := rng_randint min_sz max_sz in
        let* c := rng_sample items sz in
        ret (clusters ++ [c])) [] in
    let weights :=
      (λ i, 1 / float_of_Z (i + 1))%float <$> range (length clusters) in
    ret (clusters, weights).

Definition choose_length (n_items : Z) : M rng Z :=
  if n_items <=? 5 then ret (Z.max 2 n_items)
  else
    let* r := random in
    if (r <? 0.10)%float then
      let* x := rng_randint 3 5 in ret (Z.min n_items x)
    else if (r <? 0.70)%float then
      let* x := rng_randint 6 12 in ret (Z.min n_items x)
    else
      let* x := rng_randint 12 20 in ret (Z.min n_items x).

(** Lines 70-76: the set seeded from one cluster drawn by weight. *)
Definition seed_chosen (clusters : list (list string))
    (cluster_weights : list float) (length : Z) : M rng (gset string) :=
  let chosen : gset string := ∅ in
  match clusters with
  | [] => ret chosen
  | _ =>
      let* cluster := draw clusters cluster_weights in
      let min_pick := min_pick cluster in
      let max_pick := max_pick cluster length in
      let* pick := rng_randint min_pick max_pick in
      let* picked := rng_sample cluster pick in
      ret (chosen ∪ list_to_set picked)
  end.

(** Lines 78-80: draw by popularity until the set has [length] items. *)
Definition fill (fuel : nat) (items : list string) (item_weights : list float)
    (length : Z) (chosen : gset string) : M rng (gset string) :=
  while fuel (λ chosen, Z.of_nat (size chosen) <? length)
    (λ chosen,
      let* item := draw items item_weights in
      ret ({[item]} ∪ chosen))
    chosen.

Definition generate_transaction (fuel : nat) (items : list string)
    (clusters : list (list string)) (cluster_weights item_weights : list float)
    : M rng (list string) :=
  let n := len items in
  let* length := choose_length n in
  let* chosen := seed_chosen clusters cluster_weights length in
  let* chosen := fill fuel items item_weights length chosen in
  ret (filter (λ it, it ∈ chosen) items).

Definition alpha : float := 1.1%float.

Definition item_weights (items : list string) : list float :=
  (λ i, 1 / fpow (float_of_Z (i + 1)) alpha)%float <$> range (length items).

(** Lines 111-123 of [main]: the bounded-retry loop. *)
Definition assemble_step (fuel : nat) (items : list string)
    (clusters : list (list string)) (cluster_weights weights : list float)
    (st : assembly) : M rng assembly :=
  let attempts := attempts st + 1 in
  let* tx := generate_transaction fuel items clusters cluster_weights weights in
  let key := tx in
  if decide (key ∈ seen st) then
    ret (Assembly (seen st) (transactions st) attempts)
  else
    ret (Assembly ({[key]} ∪ seen st) (transactions st ++ [tx]) attempts).

Definition assemble (fuel : nat) (items : list string)
    (clusters : list (list string)) (cluster_weights weights : list float)
    (num_tx : Z) : M rng assembly :=
  let max_attempts := num_tx * 30 in
  while fuel
    (λ st, (len (transactions st) <? num_tx) && (attempts st <? max_attempts))
    (assemble_step fuel items clusters cluster_weights weights)
    (Assembly ∅ [] 0).

(** Lines 125-132 of [main]: warning, output file, report. *)
Definition finish (fs : filesystem) (num_tx : Z) (out_path : string)
    (txs : list (list string)) : outcome :=
  let warning :=
    if len txs <? num_tx then [warning_msg (len txs) num_tx] else [] in
  Outcome 0 (warning ++ [wrote_msg (len txs) out_path])
    (<[out_path := serialize txs]> fs).

Definition main (fuel : nat) (fs : filesystem) (argv : list string)
    : res outcome :=
  match argv with
  | [_; item_spec; count; out_path] =>
      match Text.py_int count with
      | None => Ret (Outcome 1 [count_msg] fs)
      | Some num_tx =>
          let items := load_items fs item_spec in
          match items with
          | [] => Ret (Outcome 1 [empty_msg] fs)
          | _ =>
              let run :=
                let* (clusters, cluster_weights) := build_clusters items in
                let item_weights := item_weights items in
                let* st :=
                  assemble fuel items clusters cluster_weights item_weights
                    num_tx in
                ret (finish fs num_tx out_path (transactions st)) in
              match run (rng_seed 42) with
              | Ret (o, _) => Ret o
              | Exc e => Exc e
              | OutOfFuel => OutOfFuel
              end
          end
      end
  | _ => Ret (Outcome 1 [usage_msg] fs)
  end.

End Generator.

(** ** What the generator relies on from [random.Random] *)

(** [choices] accumulates the weights and rejects a total that is not a
    positive finite number. *)
Definition weights_total (w : list float) : option float :=
  match w with
  | [] => None
  | x :: w' => Some (foldl PrimFloat.add x w' + 0)%float
  end.

Definition weights_usable (w : list float) : bool :=
  match weights_total w with
  | Some total => ((0 <? total) && (total <? infinity))%float
  | None => false
  end.

(** The documented results on arguments inside the domain: [randint]
    answers within its bounds, [sample] answers [k] elements taken at
    distinct positions of the population, [choices] answers [k] members
    of the population. *)
Class RandomLaws (rng : Type) `{!Random rng} : Prop := {
  randint_spec a b s :
    a ≤ b → ∃ r s', rng_randint a b s = Ret (r, s') ∧ a ≤ r ≤ b;
  sample_spec {A} (pop : list A) k s :
    0 ≤ k ≤ len pop →
    ∃ l s', rng_sample pop k s = Ret (l, s') ∧ len l = k ∧ l ⊆+ pop;
  choices_spec {A} (pop : list A) w k s :
    pop ≠ [] → length w = length pop → weights_usable w = true → 0 ≤ k →
    ∃ l s', rng_choices pop w k s = Ret (l, s') ∧ len l = k ∧ ∀ x, x ∈ l → x ∈ pop;
}.

Section Fairness.
Context {rng : Type} `{!Random rng}.

(** From state [s], successive draws reach item [x]. *)
Inductive hits (items : list string) (w : list float) (x : string) : rng → Prop :=
| hits_now s s' : draw items w s = Ret (x, s') → hits items w x s
| hits_later s y s' :
    draw items w s = Ret (y, s') → hits items w x s' → hits items w x s.

(** The source is fair on a universe when, from every state, successive
    draws reach every item. *)
Definition fair (items : list string) (w : list float) : Prop :=
  ∀ s x, x ∈ items → hits items w x s.
End Fairness.

(** ** A round-robin random source

    A small source that obeys [RandomLaws] and is fair, used to run the
    generator on concrete inputs. Its state is a counter. *)
Module Counter.

Definition fractions : list float := [0.05; 0.3; 0.65; 0.9]%float.

Definition random (s : nat) : float * nat :=
  (nth (s mod 4)%nat fractions 0%float, S s).

Definition randint (a b : Z) (s : nat) : res (Z * nat) :=
  if b <? a then Exc ValueError
  else Ret (a + Z.of_nat s mod (b - a + 1), S s).

Definition sample {A} (pop : list A) (k : Z) (s : nat) : res (list A * nat) :=
  if (k <? 0) || (len pop <? k) then Exc ValueError
  else Ret (take (Z.to_nat k) (rotate s pop), S s).

Fixpoint cycle {A} (pop : list A) (k : nat) (s : nat) : list A :=
  match k with
  | O => []
  | S k' => option_list (pop !! (s mod length pop)%nat) ++ cycle pop k' (S s)
  end.

Definition choices {A} (pop : list A) (w : list float) (k : Z) (s : nat)
    : res (list A * nat) :=
  if negb (length w =? length pop)%nat then Exc ValueError
  else if negb (weights_usable w) then
    match w with [] => Exc IndexError | _ => Exc ValueError end
  else Ret (cycle pop (Z.to_nat k) s, (s + Z.to_nat k)%nat).

#[global] Instance random_source : Random nat := {|
  rng_seed z := Z.to_nat z;
  rng_random := random;
  rng_randint := randint;
  rng_sample := @sample;
  rng_choices := @choices;
|}.

(** A stand-in for [**]: positive and growing with the position, so the
    popularity weights it yields are positive and decreasing. *)
Definition fpow (x y : float) : float := (x * y)%float.

End Counter.

(** ** Notions used to state the properties *)

(** The universe in the specification's words: the tokens, each kept at
    its first occurrence. *)
Fixpoint first_seen (tokens : list string) : list string :=
  match tokens with
  | [] => []
  | t :: tokens' => t :: filter (λ u, u ≠ t) (first_seen tokens')
  end.

Definition universe_of_text (text : string) : list string :=
  first_seen (Text.split (Text.replace_commas text)).

(** Every character of [s] satisfies [P]. *)
Fixpoint all_chars (P : ascii → bool) (s : string) : bool :=
  match s with
  | EmptyString => true
  | String c s' => P c && all_chars P s'
  end.

(** An item as the loader yields it: not empty, and free of white space
    and commas. *)
Definition item_char (c : ascii) : bool :=
  negb (Text.isspace c) && negb (Ascii.eqb c ",").

Definition well_formed_item (t : string) : Prop :=
  t ≠ "" ∧ all_chars item_char t = true.

(** What holds of the assembler's state every time round its loop. *)
Record assembly_inv (items : list string) (num_tx : Z) (st : assembly) : Prop := {
  inv_attempts : 0 ≤ attempts st ≤ Z.max 0 (num_tx * 30);
  inv_count : len (transactions st) ≤ Z.max 0 num_tx;
  inv_seen : ∀ tx, tx ∈ seen st ↔ tx ∈ transactions st;
  inv_NoDup : NoDup (transactions st);
  inv_sublist : Forall (λ tx, tx `sublist_of` items) (transactions st);
}.

(** [clamp x lo hi], in the specification's words. *)
Definition clamp (x lo hi : Z) : Z :=
  if x <? lo then lo else if hi <? x then hi else x.

(** The weights of the clusters, by rank. *)
Definition rank_weight (rank : nat) : float :=
  (1 / float_of_Z (Z.of_nat rank + 1))%float.

(** A cluster as the builder makes it. *)
Definition cluster_ok (items cluster : list string) : Prop :=
  3 ≤ len cluster ≤ Z.min 12 (len items) ∧ NoDup cluster ∧ cluster ⊆+ items.

(** Clusters and weights the synthesizer can seed from. *)
Definition clusters_ok (items : list string) (clusters : list (list string))
    (cw : list float) : Prop :=
  Forall (λ c, c ≠ [] ∧ NoDup c ∧ ∀ x, x ∈ c → x ∈ items) clusters
  ∧ length cw = length clusters
  ∧ (clusters ≠ [] → weights_usable cw = true).

(** ** Inputs and results of runs under the round-robin source *)

Module Demo.

Definition items : list string := ["a"; "b"; "c"; "d"; "e"; "f"; "g"; "h"].
Definition spec : string := "a,b,c,d,e,f,g,h".

Definition clusters : list (list string) :=
  [["d"; "e"; "f"]; ["f"; "g"; "h"; "a"; "b"];
   ["h"; "a"; "b"; "c"; "d"; "e"; "f"]].
Definition cluster_weights : list float := rank_weight <$> [0; 1; 2]%nat.
Definition weights : list float := item_weights Counter.fpow items.

(** The dataset of a run for 3 transactions: 4 attempts, the second of
    which repeats the first. *)
Definition dataset : list (list string) :=
  [["c"; "d"; "f"; "g"]; ["a"; "b"; "c"; "d"; "e"; "f"; "g"; "h"];
   ["b"; "f"; "g"]].
Definition final : assembly := Assembly (list_to_set dataset) dataset 4.

Definition argv : list string := ["generate_transactions.py"; spec; "3"; "out.txt"].

End Demo.

(** ** A boundary in a text *)

(** A text is at a boundary when it is empty or starts with white space. *)
Definition at_boundary (s : string) : Prop :=
  match s with
  | EmptyString => True
  | String c _ => Text.isspace c = true
  end.

(** * The dataset converter and the graph counter

    [src/A1/q2/convert_dataset.py]: [parse_yeast_dataset],
    [create_label_mapping], [convert_to_gspan_format] and
    [convert_to_fsg_format]; [src/A1/q2/run_experiments.py]:
    [count_graphs]. *)

(** ** Reading a text file line by line *)

Module Lines.

Definition CR : ascii := "013".
Definition LF : ascii := "010".

(** Text mode with universal newlines: CR LF and a lone CR are read as
    LF. *)
Fixpoint universal_newlines (s : string) : string :=
  match s with
  | EmptyString => EmptyString
  | String c s' =>
      if Ascii.eqb c CR then
        String LF
          match s' with
          | String c' s'' =>
              if Ascii.eqb c' LF then universal_newlines s''
              else universal_newlines s'
          | EmptyString => EmptyString
          end
      else String c (universal_newlines s')
  end.

(** The lines of a text, each with its line end; [cur] is the line being
    read, in reverse. *)
Fixpoint lines_go (cur : string) (s : string) : list string :=
  match s with
  | EmptyString =>
      match cur with EmptyString => [] | _ => [String.rev cur] end
  | String c s' =>
      if Ascii.eqb c LF then String.rev (String c cur) :: lines_go EmptyString s'
      else lines_go (String c cur) s'
  end.

(** [f.readlines()], and the lines [for line in f] goes through. *)
Definition readlines (text : string) : list string :=
  lines_go EmptyString (universal_newlines text).

(** [s.startswith(prefix)] *)
Fixpoint startswith (s prefix : string) : bool :=
  match prefix, s with
  | EmptyString, _ => true
  | String p prefix', String c s' => Ascii.eqb c p && startswith s' prefix'
  | String _ _, EmptyString => false
  end.

(** [s[1:]] *)
Definition tail (s : string) : string :=
  match s with
  | EmptyString => EmptyString
  | String _ s' => s'
  end.

End Lines.

Module Convert.

(** A graph as [parse_yeast_dataset] builds it: the dictionary with the
    keys 'id', 'nodes' and 'edges'. *)
Record graph := Graph {
  graph_id : string;
  graph_nodes : list string;
  graph_edges : list (Z * Z * Z);
}.

(** What opening a file for reading gives. *)
Inductive opened (A : Type) : Type :=
| FileNotFound
| Opened (result : A).
Arguments FileNotFound {A}.
Arguments Opened {A} result.

(** Computations of the parser: they may raise, and their [while] loops
    take fuel; there is no state besides the loop variables. *)
Abbreviation P := (M unit).

(** [lines[i]] *)
Definition line_at (lines : list string) (i : nat) : P string :=
  match lines !! i with
  | Some l => ret l
  | None => raise IndexError
  end.

(** [int(s)] *)
Definition to_int (s : string) : P Z :=
  match Text.py_int s with
  | Some z => ret z
  | None => raise ValueError
  end.

(** Lines 46-47: skip the empty lines after a graph id. *)
Definition skip_blank (fuel : nat) (lines : list string) (i : nat) : P nat :=
  while fuel
    (λ i, match lines !! i with
          | Some l => bool_decide (Text.strip l = "")
          | None => false
          end)
    (λ i, ret (S i)) i.

(** Lines 50-58: the number of nodes; a missing line and a line that is
    not an integer both end in the [ValueError] of line 53. *)
Definition read_num_nodes (lines : list string) (i : nat) : P Z :=
  match lines !! i with
  | Some l =>
      match Text.py_int (Text.strip l) with
      | Some n => ret n
      | None => raise ValueError
      end
  | None => raise ValueError
  end.

(** Lines 62-66 *)
Definition read_nodes (lines : list string) (num_nodes : Z) (i : nat)
    : P (list string * nat) :=
  repeat_loop (Z.to_nat num_nodes)
    (λ '(nodes, i),
      let* l := line_at lines i in
      let node_label := Text.strip l in
      ret (nodes ++ [node_label], S i))
    ([], i).

(** Lines 73-80 *)
Definition read_edges (lines : list string) (num_edges : Z) (i : nat)
    : P (list (Z * Z * Z) * nat) :=
  repeat_loop (Z.to_nat num_edges)
    (λ '(edges, i),
      let* l := line_at lines i in
      let edge_parts := Text.split (Text.strip l) in
      let* p0 := line_at edge_parts 0 in
      let* src := to_int p0 in
      let* p1 := line_at edge_parts 1 in
      let* dst := to_int p1 in
      let* p2 := line_at edge_parts 2 in
      let* edge_label := to_int p2 in
      ret (edges ++ [(src, dst, edge_label)], S i))
    ([], i).

(** Lines 32-88: one turn of the outer loop, on the index and the graphs
    read so far. *)
Definition parse_step (fuel : nat) (lines : list string)
    (st : nat * list graph) : P (nat * list graph) :=
  let '(i, graphs) := st in
  let* l := line_at lines i in
  let line := Text.strip l in
  if bool_decide (line = "") then ret (S i, graphs)
  else if Lines.startswith line "#" then
    let graph_id := Lines.tail line in
    let i := S i in
    let* i := skip_blank fuel lines i in
    let* num_nodes := read_num_nodes lines i in
    let i := S i in
    let* (nodes, i) := read_nodes lines num_nodes i in
    let* l := line_at lines i in
    let* num_edges := to_int (Text.strip l) in
    let i := S i in
    let* (edges, i) := read_edges lines num_edges i in
    ret (i, graphs ++ [Graph graph_id nodes edges])
  else ret (S i, graphs).

Definition parse_lines (fuel : nat) (lines : list string) : P (list graph) :=
  let* (_, graphs) :=
    while fuel (λ '(i, _), (i <? length lines)%nat) (parse_step fuel lines)
      (0%nat, []) in
  ret graphs.

Definition parse_yeast_dataset (fuel : nat) (fs : filesystem) (filepath : string)
    : opened (res (list graph)) :=
  match fs !! filepath with
  | None => FileNotFound
  | Some text =>
      Opened
        match parse_lines fuel (Lines.readlines text) tt with
        | Ret (graphs, _) => Ret graphs
        | Exc e => Exc e
        | OutOfFuel => OutOfFuel
        end
  end.

(** [enumerate(l)] *)
Definition enumerate {X} (l : list X) : list (nat * X) := zip (seq 0 (length l)) l.

(** [{label: idx for idx, label in enumerate(l)}] *)
Definition index_map `{Countable K} (l : list K) : gmap K nat :=
  foldl (λ m '(idx, label), <[label := idx]> m) ∅ (enumerate l).

(** Lines 98-105: the labels of all graphs. *)
Definition node_label_set (graphs : list graph) : gset string :=
  foldl (λ labels g, foldl (λ labels label, {[label]} ∪ labels) labels (graph_nodes g))
    ∅ graphs.

Definition edge_label_set (graphs : list graph) : gset Z :=
  foldl (λ labels g,
          foldl (λ labels '(_, _, edge_label), {[edge_label]} ∪ labels) labels
            (graph_edges g))
    ∅ graphs.

(** [sorted(labels)]: strings in lexicographic order of their characters,
    integers in their order. *)
Definition sorted_strings (labels : gset string) : list string :=
  merge_sort String.le (elements labels).

Definition sorted_ints (labels : gset Z) : list Z :=
  merge_sort Z.le (elements labels).

Definition create_label_mapping (graphs : list graph)
    : gmap string nat * gmap Z nat :=
  let node_labels := node_label_set graphs in
  let edge_labels := edge_label_set graphs in
  let node_label_map := index_map (sorted_strings node_labels) in
  let edge_label_map := index_map (sorted_ints edge_labels) in
  (node_label_map, edge_label_map).

(** What a converter has written, and whether it stopped on a missing
    key of the label map. *)
Inductive written :=
| Done (text : string)
| KeyError (label : string) (text : string).

Definition text_of (w : written) : string :=
  match w with Done text | KeyError _ text => text end.

(** A sequence of writes, each a function from what is written so far. *)
Definition then_write (w : written) (k : string → written) : written :=
  match w with
  | Done text => k text
  | KeyError _ _ => w
  end.

(** [for x in l: body], writing. *)
Definition write_each {X} (l : list X) (body : X → string → written)
    (text : string) : written :=
  foldl (λ w x, then_write w (body x)) (Done text) l.

(** Lines 125-130 and 148-153: one node line; [node_label_map] is [None]
    for the default argument, and an empty dictionary counts as none. *)
Definition write_node (node_label_map : option (gmap string nat))
    (node : nat * string) (text : string) : written :=
  let '(node_id, label) := node in
  let line label_int := text +:+ "v " +:+ pretty node_id +:+ " " +:+ label_int +:+ newline in
  match node_label_map with
  | Some m =>
      if bool_decide (m = ∅) then Done (line label)
      else
        match m !! label with
        | Some idx => Done (line (pretty idx))
        | None => KeyError label text
        end
  | None => Done (line label)
  end.

Definition write_edge (tag : string) (edge : Z * Z * Z) (text : string) : written :=
  let '(src, dst, edge_label) := edge in
  Done (text +:+ tag +:+ " " +:+ pretty src +:+ " " +:+ pretty dst +:+ " "
        +:+ pretty edge_label +:+ newline).

Definition write_graph (tag : string) (node_label_map : option (gmap string nat))
    (g : nat * graph) (text : string) : written :=
  let '(idx, graph) := g in
  let w := Done (text +:+ "t # " +:+ pretty idx +:+ newline) in
  let w := then_write w (write_each (enumerate (graph_nodes graph))
                           (write_node node_label_map)) in
  then_write w (write_each (graph_edges graph) (write_edge tag)).

(** The text the [with open(output_path, 'w')] block leaves in the file. *)
Definition write_graphs (tag : string) (graphs : list graph)
    (node_label_map : option (gmap string nat)) : written :=
  write_each (enumerate graphs) (write_graph tag node_label_map) "".

Definition convert_to_gspan_format (graphs : list graph) (output_path : string)
    (node_label_map : option (gmap string nat)) (fs : filesystem)
    : written * filesystem :=
  let w := write_graphs "e" graphs node_label_map in
  (w, <[output_path := text_of w]> fs).

Definition convert_to_fsg_format (graphs : list graph) (output_path : string)
    (node_label_map : option (gmap string nat)) (fs : filesystem)
    : written * filesystem :=
  let w := write_graphs "u" graphs node_label_map in
  (w, <[output_path := text_of w]> fs).

(** [count_graphs] of the experiment runner. *)
Definition count_graphs (fs : filesystem) (dataset_path : string) : opened Z :=
  match fs !! dataset_path with
  | None => FileNotFound
  | Some text =>
      Opened
        (foldl (λ count line, if Lines.startswith line "t #" then count + 1 else count)
           0 (Lines.readlines text))
  end.

End Convert.

(** ** Notions used to state the properties of the converter *)

(** The text made of the given pieces, one after the other. *)
Definition lines_text (ls : list string) : string := foldr String.append "" ls.

(** A character that ends no line. *)
Definition no_break (c : ascii) : bool :=
  negb (Ascii.eqb c Lines.CR || Ascii.eqb c Lines.LF).

(** A label that can stand on a line of its own: [strip] leaves it as it
    is, and no line ends inside it. *)
Definition clean_label (s : string) : Prop :=
  Text.strip s = s ∧ all_chars no_break s = true.

(** A graph id that can stand after the [#] of its line. *)
Definition clean_id (s : string) : Prop :=
  Text.strip ("#" +:+ s) = "#" +:+ s ∧ all_chars no_break s = true.

(** The lines of a graph in the layout [parse_yeast_dataset] documents:
    the id after [#], the number of nodes, one label per line, the number
    of edges, and one edge per line as source, destination and label. *)
Definition yeast_edge (e : Z * Z * Z) : string :=
  let '(src, dst, edge_label) := e in
  pretty src +:+ " " +:+ pretty dst +:+ " " +:+ pretty edge_label.

Definition yeast_lines (g : Convert.graph) : list string :=
  ["#" +:+ Convert.graph_id g; pretty (length (Convert.graph_nodes g))]
  ++ Convert.graph_nodes g
  ++ [pretty (length (Convert.graph_edges g))]
  ++ (yeast_edge <$> Convert.graph_edges g).

Definition yeast_text (graphs : list Convert.graph) : string :=
  lines_text ((λ l, l +:+ newline) <$> (graphs ≫= yeast_lines)).

(** Every node label of the graphs has a number in the map. *)
Definition covers (m : gmap string nat) (graphs : list Convert.graph) : Prop :=
  ∀ g label, g ∈ graphs → label ∈ Convert.graph_nodes g → is_Some (m !! label).

(** The lines the converters write for a graph: [t # N], a [v] line for
    each node and a line for each edge; [label_of] gives what stands for
    a node label. *)
Definition node_line (label_of : string → string) (node : nat * string) : string :=
  "v " +:+ pretty node.1 +:+ " " +:+ label_of node.2.

Definition edge_line (tag : string) (e : Z * Z * Z) : string :=
  tag +:+ " " +:+ yeast_edge e.

Definition graph_block (tag : string) (label_of : string → string)
    (g : nat * Convert.graph) : list string :=
  ("t # " +:+ pretty g.1)
  :: (node_line label_of <$> Convert.enumerate (Convert.graph_nodes g.2))
  ++ (edge_line tag <$> Convert.graph_edges g.2).

Definition written_lines (tag : string) (label_of : string → string)
    (graphs : list Convert.graph) : list string :=
  Convert.enumerate graphs ≫= graph_block tag label_of.

(** What a converter writes for a label: the label itself without a map,
    its number with one. *)
Definition label_text (node_label_map : option (gmap string nat)) (label : string)
    : string :=
  match node_label_map with
  | Some m => if bool_decide (m = ∅) then label else pretty (default 0%nat (m !! label))
  | None => label
  end.

(** A graph whose id and node labels can be written in that layout. *)
Definition clean_graph (g : Convert.graph) : Prop :=
  clean_id (Convert.graph_id g) ∧ Forall clean_label (Convert.graph_nodes g).

(** The line, stripped, is a graph id line. *)
Definition header_line (l : string) : bool := Lines.startswith (Text.strip l) "#".

(** A computation of the parser comes to an end, and what it returns, if
    it returns, satisfies [Q]. *)
Definition ends {A} (r : res (A * unit)) (Q : A → Prop) : Prop :=
  match r with
  | Ret (a, _) => Q a
  | Exc _ => True
  | OutOfFuel => False
  end.

(** ** Sample inputs of the converter *)

Module Sample.

Definition graphs : list Convert.graph :=
  [Convert.Graph "g1" ["C"; "N"] [(0, 1, 7)]; Convert.Graph "g2" ["A"] []].

Definition yeast_file : filesystem := {["yeast.txt" := yeast_text graphs]}.

(** A file without a graph. *)
Definition notes : string :=
  "notes" +:+ newline +:+ newline +:+ "  plain text" +:+ newline.

(** A graph id followed by a line that is not a number. *)
Definition no_count : string :=
  "junk" +:+ newline +:+ "#g" +:+ newline +:+ newline +:+ "abc" +:+ newline.

(** A graph that announces three nodes and lists one. *)
Definition truncated : string :=
  "#g" +:+ newline +:+ "3" +:+ newline +:+ "A" +:+ newline.

End Sample.

(** * Properties *)

(** ** Text functions on examples *)

Example split_inline : Text.split (Text.replace_commas "x,y,z") = ["x"; "y"; "z"].
Proof. reflexivity. Qed.

Example split_lines :
  Text.split (Text.replace_commas
    ("  milk, bread" +:+ String "010" "eggs" +:+ String "009" "tea ,"))
  = ["milk"; "bread"; "eggs"; "tea"].
Proof. reflexivity. Qed.

Example int_examples :
  Text.py_int " 12 " = Some 12 ∧ Text.py_int "-7" = Some (-7) ∧
  Text.py_int "1_000" = Some 1000 ∧ Text.py_int "abc" = None ∧
  Text.py_int "" = None ∧ Text.py_int "1__0" = None ∧
  Text.py_int "+ 3" = None ∧ Text.py_int "4_" = None ∧
  Text.py_int "007" = Some 7 ∧ Text.py_int "3.0" = None.
Proof. repeat split; reflexivity. Qed.

Example join_example : Text.join " " ["a"; "b"; "c"] = "a b c".
Proof. reflexivity. Qed.

(** ** Reasoning about computations *)

Section Computations.
Context {rng : Type}.

Lemma bind_Ret {A B} (m : M rng A) (k : A → M rng B) s b s2 :
  bind m k s = Ret (b, s2) ↔ ∃ a s1, m s = Ret (a, s1) ∧ k a s1 = Ret (b, s2).
Proof.
  unfold bind. split.
  - destruct (m s) as [[a s1]| |]; [eauto|done..].
  - by intros (a & s1 & -> & ?).
Qed.

Lemma bind_step {A B} (m : M rng A) (k : A → M rng B) s a s1 :
  m s = Ret (a, s1) → bind m k s = k a s1.
Proof. unfold bind. by intros ->. Qed.

Lemma ret_Ret {A} (a b : A) (s s' : rng) : ret a s = Ret (b, s') ↔ a = b ∧ s = s'.
Proof. unfold ret. split; [by intros [= -> ->]|by intros [-> ->]]. Qed.

Lemma while_O {St} cond (body : St → M rng St) st s :
  cond st = true → while 0 cond body st s = OutOfFuel.
Proof. simpl. by intros ->. Qed.

Lemma while_S {St} fuel cond (body : St → M rng St) st s :
  cond st = true →
  while (S fuel) cond body st s = bind (body st) (while fuel cond body) s.
Proof. simpl. by intros ->. Qed.

(** A loop that returns leaves its invariant established and its
    condition false. *)
Lemma while_Ret {St} (I : St → Prop) fuel cond (body : St → M rng St) :
  (∀ st s st' s', I st → cond st = true → body st s = Ret (st', s') → I st') →
  ∀ st s st' s',
    I st → while fuel cond body st s = Ret (st', s') → I st' ∧ cond st' = false.
Proof.
  intros Hbody. induction fuel as [|fuel IH]; intros st s st' s' HI; simpl;
    destruct (cond st) eqn:Hc; try done.
  - intros [<- _]%ret_Ret. done.
  - intros (st1 & s1 & Hb & Hw)%bind_Ret. eapply IH; [|done]. eauto.
  - intros [<- _]%ret_Ret. done.
Qed.

(** More fuel does not change a returned result, also when the body
    itself depends on fuel. *)
Lemma while_fuel_mono {St} cond (body body' : St → M rng St) fuel fuel' :
  (fuel ≤ fuel')%nat →
  (∀ st s r, body st s = Ret r → body' st s = Ret r) →
  ∀ st s r, while fuel cond body st s = Ret r → while fuel' cond body' st s = Ret r.
Proof.
  intros Hle Hbody. revert fuel' Hle.
  induction fuel as [|fuel IH]; intros fuel' Hle st s [st' s']; simpl.
  - destruct fuel'; simpl; destruct (cond st); done.
  - destruct fuel' as [|fuel']; [lia|]. simpl. destruct (cond st); [|done].
    intros (st1 & s1 & Hb & Hw)%bind_Ret.
    rewrite (bind_step _ _ _ _ _ (Hbody _ _ _ Hb)). apply IH; [lia|done].
Qed.

(** A loop returns when its body, given enough fuel of its own, always
    returns, keeps an invariant and decreases a measure. One amount of fuel
    then serves the loop and every run of its body. *)
Lemma while_total {St} (I : St → Prop) (μ : St → nat) cond
    (body : nat → St → M rng St) :
  (∀ f f' st s r, (f ≤ f')%nat → body f st s = Ret r → body f' st s = Ret r) →
  (∀ st s, I st → cond st = true →
     ∃ f st' s', body f st s = Ret (st', s') ∧ I st' ∧ (μ st' < μ st)%nat) →
  ∀ st s, I st →
    ∃ fuel st' s', while fuel cond (body fuel) st s = Ret (st', s')
      ∧ I st' ∧ cond st' = false.
Proof.
  intros Hmono Hbody st. remember (μ st) as n eqn:Hn.
  assert (Hle : (μ st ≤ n)%nat) by lia. clear Hn. revert st Hle.
  induction n as [|n IH]; intros st Hle s HI; destruct (cond st) eqn:Hc.
  - destruct (Hbody st s HI Hc) as (? & ? & ? & _ & _ & ?). lia.
  - exists 0%nat, st, s. simpl. by rewrite Hc.
  - destruct (Hbody st s HI Hc) as (f1 & st1 & s1 & Hb & HI1 & Hlt).
    assert (μ st1 ≤ n)%nat as Hle1 by lia.
    destruct (IH st1 Hle1 s1 HI1) as (f2 & st' & s' & Hrest & Hpost).
    exists (S (f1 `max` f2))%nat, st', s'. split; [|done].
    rewrite while_S by done.
    assert (f1 ≤ S (f1 `max` f2))%nat as Hf1 by lia.
    rewrite (bind_step _ _ _ _ _ (Hmono _ _ _ _ _ Hf1 Hb)).
    eapply while_fuel_mono; [| |done]; [lia|].
    intros ? ? ?. apply Hmono. lia.
  - exists 0%nat, st, s. simpl. by rewrite Hc.
Qed.

Lemma repeat_loop_total {St} (I : nat → St → Prop) (body : St → M rng St) k :
  (∀ i st s, I i st → ∃ st' s', body st s = Ret (st', s') ∧ I (S i) st') →
  ∀ i st s, I i st →
    ∃ st' s', repeat_loop k body st s = Ret (st', s') ∧ I (i + k)%nat st'.
Proof.
  intros Hbody. induction k as [|k IH]; intros i st s HI; simpl.
  - eexists _, _. split; [done|]. by rewrite Nat.add_0_r.
  - destruct (Hbody i st s HI) as (st1 & s1 & Hb & HI1).
    rewrite (bind_step _ _ _ _ _ Hb).
    destruct (IH _ _ s1 HI1) as (st2 & s2 & Hr & HI2).
    eexists _, _. split; [done|]. by rewrite Nat.add_succ_r.
Qed.
End Computations.

(** ** The item universe loader *)

Lemma first_seen_elem_of tokens x : x ∈ first_seen tokens ↔ x ∈ tokens.
Proof.
  induction tokens as [|t tokens IH]; simpl; [done|].
  rewrite !elem_of_cons, list_elem_of_filter, IH.
  destruct (decide (x = t)); naive_solver.
Qed.

Lemma first_seen_NoDup tokens : NoDup (first_seen tokens).
Proof.
  induction tokens as [|t tokens IH]; simpl; constructor.
  - rewrite list_elem_of_filter. naive_solver.
  - by apply NoDup_filter.
Qed.

Lemma filter_all {A} (P : A → Prop) `{!∀ x, Decision (P x)} (l : list A) :
  (∀ x, x ∈ l → P x) → filter P l = l.
Proof.
  induction l as [|x l IH]; intros HP; [done|].
  rewrite filter_cons_True by (apply HP; left).
  f_equal. apply IH. intros y Hy. apply HP. by right.
Qed.

Lemma load_loop_first_seen tokens acc (seen : gset string) :
  (∀ x, x ∈ seen ↔ x ∈ acc) →
  (foldl load_step (acc, seen) tokens).1
  = acc ++ filter (λ u, u ∉ acc) (first_seen tokens).
Proof.
  revert acc seen. induction tokens as [|t tokens IH]; intros acc seen Hseen; simpl.
  - by rewrite app_nil_r.
  - destruct (decide (t ∈ seen)) as [Hin|Hin].
    + rewrite (IH _ _ Hseen). f_equal.
      rewrite filter_cons_False by (intros Hn; by apply Hn, Hseen).
      rewrite list_filter_filter. apply list_filter_iff.
      intros x. split; [|by intros [? ?]]. intros Hx. split; [done|].
      intros ->. by apply Hx, Hseen.
    + rewrite IH by set_solver.
      rewrite filter_cons_True by (intros Hn; by apply Hin, Hseen).
      rewrite <-app_assoc. simpl. do 2 f_equal.
      rewrite list_filter_filter. apply list_filter_iff.
      intros x. set_solver.
Qed.

Lemma load_items_universe fs spec :
  load_items fs spec = universe_of_text (default spec (fs !! spec)).
Proof.
  unfold load_items, universe_of_text.
  assert (∀ tokens, (foldl load_step ([], ∅) tokens).1 = first_seen tokens) as Hloop.
  { intros tokens. rewrite load_loop_first_seen by set_solver. simpl.
    apply filter_all. set_solver. }
  destruct (fs !! spec); simpl; apply Hloop.
Qed.

Lemma load_items_NoDup fs spec : NoDup (load_items fs spec).
Proof. rewrite load_items_universe. apply first_seen_NoDup. Qed.

Lemma all_chars_rev_app P s1 s2 :
  all_chars P (String.rev_app s1 s2) = all_chars P s1 && all_chars P s2.
Proof.
  revert s2. induction s1 as [|c s1 IH]; intros s2; simpl; [done|].
  rewrite IH. simpl. by destruct (P c), (all_chars P s1), (all_chars P s2).
Qed.

Lemma rev_app_nonempty s1 s2 : s2 ≠ "" → String.rev_app s1 s2 ≠ "".
Proof.
  revert s2. induction s1 as [|c s1 IH]; intros s2 Hne; simpl; [done|].
  by apply IH.
Qed.

(** The tokens of [split] are not empty, and consist of the characters of
    the text that are not white space. *)
Lemma split_go_tokens P cur s :
  all_chars P cur = true → all_chars (λ c, Text.isspace c || P c) s = true →
  Forall (λ t, t ≠ "" ∧ all_chars P t = true) (Text.split_go cur s).
Proof.
  assert (∀ cur, cur ≠ "" → all_chars P cur = true →
    String.rev cur ≠ "" ∧ all_chars P (String.rev cur) = true) as Hrev.
  { intros [|c cur'] Hne Hcur; [done|]. unfold String.rev. split.
    - simpl. by apply rev_app_nonempty.
    - by rewrite all_chars_rev_app, Hcur. }
  revert cur. induction s as [|c s IH]; intros cur Hcur Hs; simpl.
  - destruct cur as [|c' cur']; [apply Forall_nil_2|].
    apply Forall_singleton. by apply Hrev.
  - simpl in Hs. apply andb_true_iff in Hs as [Hc Hs].
    destruct (Text.isspace c) eqn:Hsp.
    + destruct cur as [|c' cur']; [by apply IH|].
      constructor; [by apply Hrev|by apply IH].
    + apply IH; [|done]. simpl in *. by rewrite Hc, Hcur.
Qed.

Lemma replace_commas_chars text :
  all_chars (λ c, Text.isspace c || item_char c) (Text.replace_commas text) = true.
Proof.
  induction text as [|c text IH]; simpl; [done|]. rewrite IH, andb_true_r.
  unfold item_char. destruct (Ascii.eqb c ",") eqn:Hc; [done|].
  simpl. rewrite Hc. by destruct (Text.isspace c).
Qed.

Lemma universe_well_formed text : Forall well_formed_item (universe_of_text text).
Proof.
  unfold universe_of_text, Text.split.
  pose proof (split_go_tokens item_char "" (Text.replace_commas text) eq_refl
    (replace_commas_chars text)) as Htokens.
  rewrite Forall_forall in Htokens. apply Forall_forall. intros t Ht.
  by apply Htokens, first_seen_elem_of.
Qed.


(** ** Safety of the synthesizer and the assembler

    These hold for every random source, whatever it answers. *)

Section Safety.
Context {rng : Type} `{!Random rng}.

Lemma generate_transaction_sublist fuel items clusters cw w s tx s' :
  generate_transaction fuel items clusters cw w s = Ret (tx, s') →
  tx `sublist_of` items.
Proof.
  unfold generate_transaction.
  intros (L & s1 & _ & (c0 & s2 & _ & (c1 & s3 & _ & [<- _]%ret_Ret)%bind_Ret)
    %bind_Ret)%bind_Ret.
  apply sublist_filter.
Qed.

(** One attempt: the counter goes up by one, and the synthesized
    transaction is appended exactly when it has not been seen. *)
Lemma assemble_step_Ret fuel items clusters cw w st s st' s' :
  assemble_step fuel items clusters cw w st s = Ret (st', s') ↔
  ∃ tx, generate_transaction fuel items clusters cw w s = Ret (tx, s') ∧
    st' = if decide (tx ∈ seen st)
          then Assembly (seen st) (transactions st) (attempts st + 1)
          else Assembly ({[tx]} ∪ seen st) (transactions st ++ [tx])
                 (attempts st + 1).
Proof.
  unfold assemble_step. rewrite bind_Ret. split.
  - intros (tx & s1 & Hg & Hr). exists tx.
    destruct (decide (tx ∈ seen st)); apply ret_Ret in Hr as [<- <-]; done.
  - intros (tx & Hg & ->). exists tx, s'. split; [done|].
    by destruct (decide (tx ∈ seen st)).
Qed.

Lemma assemble_step_inv fuel items clusters cw w num_tx st s st' s' :
  assembly_inv items num_tx st →
  (len (transactions st) <? num_tx) && (attempts st <? num_tx * 30) = true →
  assemble_step fuel items clusters cw w st s = Ret (st', s') →
  assembly_inv items num_tx st'.
Proof.
  intros [Ha Hc Hs Hn Hsub] [Hlt1 Hlt2]%andb_true_iff
    (tx & Hg%generate_transaction_sublist & ->)%assemble_step_Ret.
  apply Z.ltb_lt in Hlt1, Hlt2.
  destruct (decide (tx ∈ seen st)) as [Hin|Hin]; constructor; simpl;
    try done; try lia.
  - unfold len in *. rewrite length_app. simpl. lia.
  - intros tx'. rewrite elem_of_union, elem_of_singleton, elem_of_app,
      list_elem_of_singleton, Hs. tauto.
  - apply NoDup_app. split; [done|]. split; [|apply NoDup_singleton].
    intros tx' Hin' ->%list_elem_of_singleton. by apply Hin, Hs.
  - apply Forall_app. split; [done|]. by apply Forall_singleton.
Qed.

Lemma assemble_Ret fuel items clusters cw w num_tx s st s' :
  assemble fuel items clusters cw w num_tx s = Ret (st, s') →
  assembly_inv items num_tx st
  ∧ (num_tx ≤ len (transactions st) ∨ num_tx * 30 ≤ attempts st).
Proof.
  unfold assemble. intros Hw.
  eapply (while_Ret (assembly_inv items num_tx)) in Hw as [Hinv Hc].
  - split; [done|]. apply andb_false_iff in Hc as [?%Z.ltb_ge|?%Z.ltb_ge]; auto.
  - intros. by eapply assemble_step_inv.
  - constructor; simpl;
      [lia | unfold len; simpl; lia | set_solver | apply NoDup_nil_2
      | apply Forall_nil_2].
Qed.

(** C2. Every transaction of the assembled dataset is made of items of
    the universe only, in the order the universe lists them. *)
Theorem transactions_within_universe fuel items clusters cw w num_tx
    (s : rng) st s' :
  assemble fuel items clusters cw w num_tx s = Ret (st, s') →
  ∀ tx, tx ∈ transactions st →
    (∀ x, x ∈ tx → x ∈ items) ∧ tx `sublist_of` items.
Proof.
  intros [Hinv _]%assemble_Ret tx Hin.
  pose proof (inv_sublist _ _ _ Hinv) as Hsub.
  rewrite Forall_forall in Hsub. specialize (Hsub tx Hin).
  split; [|done]. intros x Hx. by eapply sublist_subseteq.
Qed.

(** C3. The assembled dataset has no transaction twice: at two distinct
    positions of the list the transactions differ. *)
Theorem transactions_unique fuel items clusters cw w num_tx (s : rng) st s' :
  assemble fuel items clusters cw w num_tx s = Ret (st, s') →
  ∀ i j tx1 tx2,
    transactions st !! i = Some tx1 → transactions st !! j = Some tx2 →
    i ≠ j → tx1 ≠ tx2.
Proof.
  intros [Hinv _]%assemble_Ret i j tx1 tx2 Hi Hj Hne ->.
  apply Hne. eapply NoDup_lookup; [apply (inv_NoDup _ _ _ Hinv)|done..].
Qed.
End Safety.

(** ** The program as a whole *)

Lemma append_assoc (s1 s2 s3 : string) : (s1 +:+ s2) +:+ s3 = s1 +:+ s2 +:+ s3.
Proof.
  induction s1 as [|c s1 IH]; [done|].
  change (String c ((s1 +:+ s2) +:+ s3) = String c (s1 +:+ s2 +:+ s3)).
  by rewrite IH.
Qed.

Lemma append_empty_r (s : string) : s +:+ "" = s.
Proof.
  induction s as [|c s IH]; [done|].
  change (String c (s +:+ "") = String c s). by rewrite IH.
Qed.


Section Program.
Context {rng : Type} `{!Random rng}.
Variable fpow : float → float → float.

Lemma fill_fuel_mono fuel fuel' items w L chosen (s : rng) r :
  (fuel ≤ fuel')%nat →
  fill fuel items w L chosen s = Ret r → fill fuel' items w L chosen s = Ret r.
Proof. intros Hle. unfold fill. by apply while_fuel_mono. Qed.

Lemma generate_transaction_fuel_mono fuel fuel' items clusters cw w (s : rng) r :
  (fuel ≤ fuel')%nat →
  generate_transaction fuel items clusters cw w s = Ret r →
  generate_transaction fuel' items clusters cw w s = Ret r.
Proof.
  intros Hle. unfold generate_transaction. destruct r as [tx s'].
  intros (L & s1 & HL & (c0 & s2 & Hc0 & (c1 & s3 & Hc1 & Hr)%bind_Ret)
    %bind_Ret)%bind_Ret.
  rewrite (bind_step _ _ _ _ _ HL), (bind_step _ _ _ _ _ Hc0).
  by rewrite (bind_step _ _ _ _ _ (fill_fuel_mono _ _ _ _ _ _ _ _ Hle Hc1)).
Qed.

Lemma assemble_fuel_mono fuel fuel' items clusters cw w num_tx (s : rng) r :
  (fuel ≤ fuel')%nat →
  assemble fuel items clusters cw w num_tx s = Ret r →
  assemble fuel' items clusters cw w num_tx s = Ret r.
Proof.
  intros Hle. unfold assemble. apply while_fuel_mono; [done|].
  intros st s0 [st' s'] (tx & Hg & ->)%assemble_step_Ret.
  apply assemble_step_Ret. exists tx. split; [|done].
  by eapply generate_transaction_fuel_mono.
Qed.

(** A run that gets past the two input checks is the cluster builder,
    then the assembler, then the report. *)
Lemma main_Ret fuel fs prog spec count out num_tx o :
  Text.py_int count = Some num_tx → load_items fs spec ≠ [] →
  main fpow fuel fs [prog; spec; count; out] = Ret o ↔
  ∃ clusters cw s0 st s1,
    build_clusters (load_items fs spec) (rng_seed 42) = Ret ((clusters, cw), s0)
    ∧ assemble fuel (load_items fs spec) clusters cw
        (item_weights fpow (load_items fs spec)) num_tx s0 = Ret (st, s1)
    ∧ o = finish fs num_tx out (transactions st).
Proof.
  intros Hcount Hitems. unfold main. rewrite Hcount.
  destruct (load_items fs spec) as [|x items] eqn:Hload; [done|].
  split.
  - destruct (bind _ _ _) as [[o' s']| |] eqn:Hrun; try done. intros [= <-].
    apply bind_Ret in Hrun as ([clusters cw] & s0 & Hb & Hrun).
    apply bind_Ret in Hrun as (st & s1 & Ha & [<- _]%ret_Ret).
    by eexists _, _, _, _, _.
  - intros (clusters & cw & s0 & st & s1 & Hb & Ha & ->).
    rewrite (bind_step _ _ _ _ _ Hb). simpl.
    by rewrite (bind_step _ _ _ _ _ Ha).
Qed.

Lemma main_fuel_mono fuel fuel' fs argv o :
  (fuel ≤ fuel')%nat →
  main fpow fuel fs argv = Ret o → main fpow fuel' fs argv = Ret o.
Proof.
  intros Hle.
  destruct argv as [|prog [|spec [|count [|out [|? ?]]]]]; try done.
  destruct (Text.py_int count) as [num_tx|] eqn:Hcount;
    [|by unfold main; rewrite Hcount].
  destruct (decide (load_items fs spec = [])) as [Hitems|Hitems];
    [by unfold main; rewrite Hcount, Hitems|].
  rewrite !main_Ret by done.
  intros (clusters & cw & s0 & st & s1 & Hb & Ha & ->).
  eexists _, _, _, _, _. split; [done|]. split; [|done].
  by eapply assemble_fuel_mono.
Qed.

Lemma load_items_ext fs1 fs2 spec :
  fs1 !! spec = fs2 !! spec → load_items fs1 spec = load_items fs2 spec.
Proof. intros Heq. by rewrite !load_items_universe, Heq. Qed.

(** C1. Two runs on the same item specification, count and output path
    end alike: the same exit status, the same messages and, when a file
    is written, the same bytes at the output path. The runs may start
    from different file systems, as long as the item specification
    resolves to the same text in both; the random source is seeded with
    the constant 42 in each and threaded through the same calls. *)
Theorem runs_are_reproducible fuel1 fuel2 fs1 fs2 prog1 prog2 spec count out
    o1 o2 :
  fs1 !! spec = fs2 !! spec →
  main fpow fuel1 fs1 [prog1; spec; count; out] = Ret o1 →
  main fpow fuel2 fs2 [prog2; spec; count; out] = Ret o2 →
  exit_code o1 = exit_code o2
  ∧ stdout o1 = stdout o2
  ∧ (exit_code o1 = 0 →
     ∃ bytes, files o1 !! out = Some bytes ∧ files o2 !! out = Some bytes).
Proof.
  intros Hfs%load_items_ext H1 H2.
  destruct (Text.py_int count) as [num_tx|] eqn:Hcount.
  2:{ unfold main in H1, H2. rewrite Hcount in H1, H2.
      injection H1 as <-. injection H2 as <-. done. }
  destruct (decide (load_items fs1 spec = [])) as [Hitems|Hitems].
  { unfold main in H1, H2. rewrite Hcount in H1, H2.
    rewrite <-Hfs, Hitems in H2. rewrite Hitems in H1.
    injection H1 as <-. injection H2 as <-. done. }
  apply (main_fuel_mono _ (fuel1 `max` fuel2)%nat) in H1; [|lia].
  apply (main_fuel_mono _ (fuel1 `max` fuel2)%nat) in H2; [|lia].
  assert (load_items fs2 spec ≠ []) as Hitems' by (by rewrite <-Hfs).
  apply (main_Ret _ _ _ _ _ _ _ _ Hcount Hitems) in H1
    as (clusters & cw & s0 & st & s1 & Hb & Ha & ->).
  apply (main_Ret _ _ _ _ _ _ _ _ Hcount Hitems') in H2
    as (clusters' & cw' & s0' & st' & s1' & Hb' & Ha' & ->).
  rewrite <-Hfs in Hb', Ha'. rewrite Hb in Hb'. injection Hb' as <- <- <-.
  rewrite Ha in Ha'. injection Ha' as <- <-.
  unfold finish; simpl. split; [done|]. split; [done|]. intros _.
  exists (serialize (transactions st)). by rewrite !lookup_insert_eq.
Qed.


End Program.

(** ** What a lawful random source guarantees *)

Lemma submseteq_NoDup {A} (l k : list A) : l ⊆+ k → NoDup k → NoDup l.
Proof.
  intros [k' Hk]%submseteq_Permutation Hnd. rewrite Hk in Hnd.
  by apply NoDup_app in Hnd as [? _].
Qed.

Lemma submseteq_elem_of {A} (l k : list A) x : l ⊆+ k → x ∈ l → x ∈ k.
Proof.
  intros [k' Hk]%submseteq_Permutation Hx. rewrite Hk. apply elem_of_app. by left.
Qed.

Lemma rank_weights_lookup k rank :
  (rank < k)%nat →
  ((λ i, 1 / float_of_Z (i + 1))%float <$> range k) !! rank = Some (rank_weight rank).
Proof.
  intros Hlt. unfold range. rewrite !list_lookup_fmap, lookup_seq_lt by done.
  done.
Qed.

Lemma rank_weights_usable k :
  (3 ≤ k ≤ 10)%nat →
  weights_usable ((λ i, 1 / float_of_Z (i + 1))%float <$> range k) = true.
Proof.
  intros Hk. do 11 (destruct k as [|k]; [try lia; by vm_compute|]). lia.
Qed.

Section Lawful.
Context {rng : Type} `{!Random rng} `{!RandomLaws rng}.

Lemma draw_spec {A} (pop : list A) w (s : rng) :
  pop ≠ [] → length w = length pop → weights_usable w = true →
  ∃ x s', draw pop w s = Ret (x, s') ∧ x ∈ pop.
Proof.
  intros Hne Hlen Hw.
  destruct (choices_spec pop w 1 s Hne Hlen Hw) as (l & s' & Hc & Hl & Hin);
    [lia|].
  destruct l as [|x l]; [done|]. exists x, s'. unfold draw.
  rewrite (bind_step _ _ _ _ _ Hc). split; [done|]. apply Hin. left.
Qed.

(** The cluster builder returns on every universe of distinct items. *)
Lemma build_clusters_total items (s : rng) :
  NoDup items →
  ∃ clusters cw s', build_clusters items s = Ret ((clusters, cw), s')
    ∧ (len items < 4 → clusters = [] ∧ cw = [] ∧ s' = s)
    ∧ (4 ≤ len items →
         len clusters = Z.max 3 (Z.min 10 (len items / 5))
         ∧ Forall (cluster_ok items) clusters
         ∧ cw = (λ i, 1 / float_of_Z (i + 1))%float <$> range (length clusters)).
Proof.
  intros Hnd. unfold build_clusters.
  destruct (len items <? 4) eqn:Hn.
  { apply Z.ltb_lt in Hn. eexists _, _, _. split; [done|]. split; [done|lia]. }
  apply Z.ltb_ge in Hn.
  set (k := Z.max 3 (Z.min 10 (len items / 5))).
  match goal with |- context [repeat_loop ?n ?body []] =>
    destruct (repeat_loop_total (rng := rng)
      (λ i cs, length cs = i ∧ Forall (cluster_ok items) cs) body n)
      with (i := 0%nat) (st := @nil (list string)) (s := s)
      as (clusters & s' & Hloop & Hlen & Hok)
  end.
  - intros i cs s0 [Hi Hcs].
    replace (Z.min 12 (len items) <? 3) with false by (symmetry; apply Z.ltb_ge; lia).
    destruct (randint_spec 3 (Z.min 12 (len items)) s0) as (sz & s1 & Hr & Hsz);
      [lia|].
    destruct (sample_spec items sz s1) as (c & s2 & Hs & Hc & Hsub); [lia|].
    eexists _, _. rewrite (bind_step _ _ _ _ _ Hr), (bind_step _ _ _ _ _ Hs).
    split; [done|]. split.
    + rewrite length_app. simpl. lia.
    + apply Forall_app. split; [done|]. apply Forall_singleton.
      split; [lia|]. split; [by eapply submseteq_NoDup|done].
  - split; [done|]. apply Forall_nil_2.
  - rewrite (bind_step _ _ _ _ _ Hloop).
    eexists _, _, _. split; [done|]. split; [lia|]. intros _.
    split; [|done]. unfold len. rewrite Hlen. simpl. lia.
Qed.

Lemma build_clusters_ok items (s : rng) clusters cw s' :
  NoDup items → build_clusters items s = Ret ((clusters, cw), s') →
  clusters_ok items clusters cw.
Proof.
  intros Hnd Hb.
  destruct (build_clusters_total items s Hnd) as (? & ? & ? & Hb' & Hsmall & Hbig).
  rewrite Hb in Hb'. injection Hb' as <- <- <-.
  destruct (decide (len items < 4)) as [Hn|Hn].
  - destruct (Hsmall Hn) as (-> & -> & _). split; [apply Forall_nil_2|done].
  - destruct Hbig as (Hk & Hcs & ->); [lia|]. split; [|split].
    + eapply Forall_impl; [done|]. intros c (Hc & Hndc & Hsub).
      split; [|split; [done|]].
      * intros ->. unfold len in Hc. simpl in Hc. lia.
      * intros x. by apply submseteq_elem_of.
    + unfold range. by rewrite !length_fmap, length_seq.
    + intros _. apply rank_weights_usable. unfold len in Hk. lia.
Qed.

(** C9. On fewer than 4 items the builder answers no clusters and no
    weights. On [n >= 4] distinct items it answers exactly
    [clamp (n // 5) 3 10] clusters, each of 3 to [min 12 n] distinct items
    taken at distinct positions of the universe, and as many weights,
    the one at rank [i] (counted from 0) being [1 / (i + 1)]. *)
Theorem build_clusters_spec items (s : rng) :
  NoDup items →
  (len items < 4 → build_clusters items s = Ret (([], []), s))
  ∧ (4 ≤ len items →
     ∃ clusters cw s',
       build_clusters items s = Ret ((clusters, cw), s')
       ∧ len clusters = clamp (len items / 5) 3 10
       ∧ Forall (λ c, 3 ≤ len c ≤ Z.min 12 (len items)
                      ∧ NoDup c ∧ c ⊆+ items) clusters
       ∧ length cw = length clusters
       ∧ ∀ rank, (rank < length clusters)%nat →
           cw !! rank = Some (1 / float_of_Z (Z.of_nat rank + 1))%float).
Proof.
  intros Hnd.
  destruct (build_clusters_total items s Hnd)
    as (clusters & cw & s' & Hb & Hsmall & Hbig).
  split.
  - intros Hn. by destruct (Hsmall Hn) as (-> & -> & ->).
  - intros Hn. destruct (Hbig Hn) as (Hk & Hcs & ->).
    eexists clusters, _, s'. split; [done|]. split; [|split; [done|split]].
    + rewrite Hk. unfold clamp.
      destruct (len items / 5 <? 3) eqn:H3; [apply Z.ltb_lt in H3; lia|].
      apply Z.ltb_ge in H3.
      destruct (10 <? len items / 5) eqn:H10;
        [apply Z.ltb_lt in H10|apply Z.ltb_ge in H10]; lia.
    + unfold range. by rewrite !length_fmap, length_seq.
    + intros rank Hrank. by apply rank_weights_lookup.
Qed.

Lemma pick_bounds cluster L :
  cluster ≠ [] → 2 ≤ L →
  1 ≤ min_pick cluster ≤ max_pick cluster L
  ∧ max_pick cluster L ≤ L ∧ max_pick cluster L ≤ len cluster.
Proof.
  intros Hne HL. unfold max_pick, min_pick.
  assert (1 ≤ len cluster) by (destruct cluster; [done|unfold len; simpl; lia]).
  assert (L / 2 ≤ L) by (apply Z.div_le_upper_bound; lia).
  destruct (2 <=? len cluster) eqn:H2;
    [apply Z.leb_le in H2|apply Z.leb_gt in H2]; lia.
Qed.

(** Step 1 returns a length between 2 and the universe size, and the
    universe size itself on small universes. *)
Lemma choose_length_total n (s : rng) :
  2 ≤ n →
  ∃ L s', choose_length n s = Ret (L, s') ∧ 2 ≤ L ≤ n ∧ (n ≤ 5 → L = n).
Proof.
  intros Hn. unfold choose_length.
  destruct (n <=? 5) eqn:H5; [apply Z.leb_le in H5|apply Z.leb_gt in H5].
  { eexists _, _. split; [done|]. lia. }
  unfold random, bind at 1. destruct (rng_random s) as [r s1].
  assert (∀ a b, 3 ≤ a ≤ b →
    ∃ L s', (let* x := rng_randint a b in ret (Z.min n x)) s1 = Ret (L, s')
      ∧ 2 ≤ L ≤ n ∧ (n ≤ 5 → L = n)) as Hbranch.
  { intros a b Hab. destruct (randint_spec a b s1) as (x & s2 & Hr & Hx); [lia|].
    eexists _, _. rewrite (bind_step _ _ _ _ _ Hr). split; [done|]. lia. }
  destruct (r <? 0.10)%float; [apply Hbranch; lia|].
  destruct (r <? 0.70)%float; apply Hbranch; lia.
Qed.

(** Step 2 returns a set of items of the universe, no larger than the
    target length: its size is the pick count, drawn between the two
    pick bounds of the cluster. *)
Lemma seed_chosen_total items clusters cw L (s : rng) :
  clusters_ok items clusters cw → 2 ≤ L →
  ∃ chosen s', seed_chosen clusters cw L s = Ret (chosen, s')
    ∧ (∀ x, x ∈ chosen → x ∈ items)
    ∧ Z.of_nat (size chosen) ≤ L
    ∧ (clusters = [] → chosen = ∅)
    ∧ (clusters ≠ [] →
         ∃ cluster, cluster ∈ clusters
           ∧ min_pick cluster ≤ Z.of_nat (size chosen) ≤ max_pick cluster L).
Proof.
  intros (Hcs & Hlen & Hw) HL. unfold seed_chosen.
  destruct clusters as [|c0 clusters'] eqn:Hclusters.
  { exists ∅, s. split; [done|]. split; [set_solver|].
    rewrite size_empty. split; [lia|]. done. }
  rewrite <-Hclusters in *. assert (clusters ≠ []) as Hne by by subst.
  destruct (draw_spec clusters cw s Hne Hlen (Hw Hne)) as (c & s1 & Hd & Hc).
  rewrite Forall_forall in Hcs. destruct (Hcs c Hc) as (Hcne & Hcnd & Hcsub).
  destruct (pick_bounds c L Hcne HL) as (Hmin & HmaxL & Hmaxc).
  destruct (randint_spec (min_pick c) (max_pick c L) s1)
    as (pick & s2 & Hr & Hpick); [lia|].
  destruct (sample_spec c pick s2) as (picked & s3 & Hs & Hplen & Hpsub); [lia|].
  assert (Z.of_nat (size (∅ ∪ list_to_set picked : gset string)) = pick) as Hsize.
  { rewrite (left_id_L ∅ (∪)), size_list_to_set by by eapply submseteq_NoDup.
    done. }
  eexists _, s3. subst clusters.
  rewrite (bind_step _ _ _ _ _ Hd), (bind_step _ _ _ _ _ Hr),
    (bind_step _ _ _ _ _ Hs).
  split; [done|]. split; [|split; [lia|split; [done|]]].
  - intros x Hx. apply Hcsub. eapply submseteq_elem_of; [done|]. set_solver.
  - intros _. exists c. split; [done|]. lia.
Qed.

Lemma exists_fresh items (chosen : gset string) :
  NoDup items → (size chosen < length items)%nat →
  ∃ x, x ∈ items ∧ x ∉ chosen.
Proof.
  intros Hnd Hlt.
  destruct (decide (Forall (λ x, x ∈ chosen) items)) as [Hall|Hex].
  - rewrite Forall_forall in Hall.
    assert (list_to_set items ⊆ chosen) as Hsub by set_solver.
    apply subseteq_size in Hsub. rewrite size_list_to_set in Hsub by done. lia.
  - apply not_Forall_Exists in Hex; [|apply _].
    apply Exists_exists in Hex as (x & ? & ?). by exists x.
Qed.

Lemma filter_chosen_length items (chosen : gset string) :
  NoDup items → (∀ x, x ∈ chosen → x ∈ items) →
  length (filter (λ it, it ∈ chosen) items) = size chosen.
Proof.
  intros Hnd Hsub.
  rewrite <-(size_list_to_set (C := gset string)) by by apply NoDup_filter.
  f_equal. apply set_eq. intros x.
  rewrite elem_of_list_to_set, list_elem_of_filter. naive_solver.
Qed.

Lemma fill_done fuel items w L (chosen : gset string) (s : rng) :
  L ≤ Z.of_nat (size chosen) → fill fuel items w L chosen s = Ret (chosen, s).
Proof.
  intros Hge. unfold fill.
  destruct fuel; simpl; by rewrite (proj2 (Z.ltb_ge _ _) Hge).
Qed.

Lemma fill_step fuel items w L (chosen : gset string) (s : rng) y s1 :
  Z.of_nat (size chosen) < L → draw items w s = Ret (y, s1) →
  fill (S fuel) items w L chosen s = fill fuel items w L ({[y]} ∪ chosen) s1.
Proof.
  intros Hlt Hd. unfold fill. simpl. rewrite (proj2 (Z.ltb_lt _ _) Hlt).
  unfold bind at 1. by rewrite (bind_step _ _ _ _ _ Hd).
Qed.

(** Step 3 returns under a fair source, with exactly the target length. *)
Lemma fill_total items w L :
  NoDup items → items ≠ [] → length w = length items →
  weights_usable w = true → fair items w → L ≤ len items →
  ∀ d (chosen : gset string) (s : rng),
    (Z.to_nat (L - Z.of_nat (size chosen)) ≤ d)%nat →
    (∀ x, x ∈ chosen → x ∈ items) →
    ∃ fuel chosen' s', fill fuel items w L chosen s = Ret (chosen', s')
      ∧ (∀ x, x ∈ chosen' → x ∈ items)
      ∧ (Z.of_nat (size chosen) ≤ L → Z.of_nat (size chosen') = L).
Proof.
  intros Hnd Hne Hlen Hw Hfair HL.
  induction d as [|d IH]; intros chosen s Hd Hsub.
  { exists 0%nat, chosen, s. rewrite fill_done by lia. split; [done|].
    split; [done|lia]. }
  destruct (decide (L ≤ Z.of_nat (size chosen))) as [Hge|Hlt%Z.nle_gt].
  { exists 0%nat, chosen, s. rewrite fill_done by lia. split; [done|].
    split; [done|lia]. }
  assert (∀ s y s1, y ∉ chosen → draw items w s = Ret (y, s1) →
    ∃ fuel chosen' s', fill fuel items w L chosen s = Ret (chosen', s')
      ∧ (∀ x, x ∈ chosen' → x ∈ items)
      ∧ (Z.of_nat (size chosen) ≤ L → Z.of_nat (size chosen') = L)) as Hgrow.
  { intros s0 y s1 Hy Hdraw.
    destruct (draw_spec items w s0 Hne Hlen Hw) as (y' & ? & Hdraw' & Hin).
    rewrite Hdraw in Hdraw'. injection Hdraw' as <- <-.
    assert (size ({[y]} ∪ chosen) = S (size chosen)) as Hsize.
    { rewrite size_union by set_solver. by rewrite size_singleton. }
    destruct (IH ({[y]} ∪ chosen) s1) as (fuel & chosen' & s' & Hf & Hsub' & Hsz).
    - rewrite Hsize. lia.
    - set_solver.
    - exists (S fuel), chosen', s'. rewrite (fill_step _ _ _ _ _ _ _ _ Hlt Hdraw).
      split; [done|]. split; [done|]. intros _. apply Hsz. rewrite Hsize. lia. }
  destruct (exists_fresh items chosen Hnd) as (x & Hx & Hfresh).
  { unfold len in HL. lia. }
  specialize (Hfair s x Hx).
  induction Hfair as [s s1 Hdraw|s y s1 Hdraw _ IHhits]; [by eapply Hgrow|].
  destruct (decide (y ∈ chosen)) as [Hy|Hy]; [|by eapply Hgrow].
  destruct IHhits as (fuel & chosen' & s' & Hf & Hrest).
  exists (S fuel), chosen', s'. rewrite (fill_step _ _ _ _ _ _ _ _ Hlt Hdraw).
  by replace ({[y]} ∪ chosen) with chosen by set_solver.
Qed.

(** Nothing but the draws ends the fill loop: from a state whose draws
    reach no item outside the set, it is still looping whatever the fuel. *)
Lemma fill_needs_fresh_draws items w L (chosen : gset string) (s : rng) fuel :
  items ≠ [] → length w = length items → weights_usable w = true →
  Z.of_nat (size chosen) < L →
  (∀ x, x ∉ chosen → ¬ hits items w x s) →
  fill fuel items w L chosen s = OutOfFuel.
Proof.
  intros Hne Hlen Hw Hlt. revert s.
  induction fuel as [|fuel IH]; intros s Hstuck.
  - unfold fill. simpl. by rewrite (proj2 (Z.ltb_lt _ _) Hlt).
  - destruct (draw_spec items w s Hne Hlen Hw) as (y & s1 & Hdraw & _).
    rewrite (fill_step _ _ _ _ _ _ _ _ Hlt Hdraw).
    destruct (decide (y ∈ chosen)) as [Hy|Hy].
    + replace ({[y]} ∪ chosen) with chosen by set_solver. apply IH.
      intros x Hx Hhits. apply (Hstuck x Hx). by eapply hits_later.
    + exfalso. apply (Hstuck y Hy). by eapply hits_now.
Qed.

(** The three steps in sequence. *)
Lemma generate_transaction_steps items clusters cw w (s : rng) :
  NoDup items → 2 ≤ len items → clusters_ok items clusters cw →
  length w = length items → weights_usable w = true → fair items w →
  ∃ fuel L s1 chosen0 s2 chosen s3,
    choose_length (len items) s = Ret (L, s1)
    ∧ seed_chosen clusters cw L s1 = Ret (chosen0, s2)
    ∧ fill fuel items w L chosen0 s2 = Ret (chosen, s3)
    ∧ generate_transaction fuel items clusters cw w s
      = Ret (filter (λ it, it ∈ chosen) items, s3)
    ∧ 2 ≤ L ≤ len items ∧ (len items ≤ 5 → L = len items)
    ∧ Z.of_nat (size chosen0) ≤ L
    ∧ (clusters ≠ [] →
         ∃ cluster, cluster ∈ clusters
           ∧ min_pick cluster ≤ Z.of_nat (size chosen0) ≤ max_pick cluster L
           ∧ max_pick cluster L ≤ L)
    ∧ Z.of_nat (size chosen) = L
    ∧ len (filter (λ it, it ∈ chosen) items) = L.
Proof.
  intros Hnd Hn Hcs Hlen Hw Hfair.
  assert (items ≠ []) as Hne by (intros ->; unfold len in Hn; simpl in Hn; lia).
  destruct (choose_length_total (len items) s Hn) as (L & s1 & HL & HLn & HL5).
  destruct (seed_chosen_total items clusters cw L s1 Hcs)
    as (chosen0 & s2 & Hseed & Hsub0 & Hsize0 & _ & Hpick); [lia|].
  destruct (fill_total items w L Hnd Hne Hlen Hw Hfair (proj2 HLn)
    _ chosen0 s2 (Nat.le_refl _) Hsub0) as (fuel & chosen & s3 & Hfill & Hsub & Hsize).
  exists fuel, L, s1, chosen0, s2, chosen, s3.
  split; [done|]. split; [done|]. split; [done|]. split.
  { unfold generate_transaction.
    by rewrite (bind_step _ _ _ _ _ HL), (bind_step _ _ _ _ _ Hseed),
      (bind_step _ _ _ _ _ Hfill). }
  split; [done|]. split; [done|]. split; [done|]. split.
  - intros Hcne. destruct (Hpick Hcne) as (c & Hc & Hbounds).
    exists c. split; [done|]. split; [done|].
    destruct Hcs as (Hcs & _). rewrite Forall_forall in Hcs.
    destruct (Hcs c Hc) as (Hcne' & _). apply pick_bounds; [done|lia].
  - split; [by apply Hsize|].
    unfold len. rewrite filter_chosen_length by done. by apply Hsize.
Qed.

(** When the fill loop returns, the set has exactly the target length. *)
Lemma fill_Ret_size fuel items w L (chosen0 chosen : gset string) (s s' : rng) :
  items ≠ [] → length w = length items → weights_usable w = true →
  (∀ x, x ∈ chosen0 → x ∈ items) → Z.of_nat (size chosen0) ≤ L →
  fill fuel items w L chosen0 s = Ret (chosen, s') →
  (∀ x, x ∈ chosen → x ∈ items) ∧ Z.of_nat (size chosen) = L.
Proof.
  intros Hne Hlen Hw Hsub0 Hsize0 Hfill. unfold fill in Hfill.
  eapply (while_Ret (λ c : gset string,
    (∀ x, x ∈ c → x ∈ items) ∧ Z.of_nat (size c) ≤ L)) in Hfill
    as [[Hsub Hsize] Hexit%Z.ltb_ge]; [split; [done|lia]| |done].
  intros c r c' r' [Hc Hcs] Hlt%Z.ltb_lt (y & r1 & Hdraw & [<- _]%ret_Ret)%bind_Ret.
  destruct (draw_spec items w r Hne Hlen Hw) as (y' & ? & Hdraw' & Hin).
  rewrite Hdraw in Hdraw'. injection Hdraw' as <- <-. split; [set_solver|].
  pose proof (size_union_alt {[y]} c) as Hu. rewrite size_singleton in Hu.
  assert (size (c ∖ {[y]}) ≤ size c)%nat by (apply subseteq_size; set_solver).
  lia.
Qed.

(** C10. On a universe of at least 2 distinct items, with clusters as
    the builder makes them and weights [choices] accepts, step 1 chooses
    a length that is at most the universe size; step 2 seeds a set with
    as many items as were picked, a count between the pick bounds of the
    drawn cluster, which do not exceed the chosen length; and every
    transaction [generate_transaction] returns has exactly the chosen
    length. Under a fair source it does return one. *)
Theorem generate_transaction_length items clusters cw w (s : rng) :
  NoDup items → 2 ≤ len items → clusters_ok items clusters cw →
  length w = length items → weights_usable w = true →
  ∃ L s1 chosen0 s2,
    choose_length (len items) s = Ret (L, s1) ∧ L ≤ len items
    ∧ seed_chosen clusters cw L s1 = Ret (chosen0, s2)
    ∧ Z.of_nat (size chosen0) ≤ L
    ∧ (clusters ≠ [] →
         ∃ cluster, cluster ∈ clusters
           ∧ min_pick cluster ≤ Z.of_nat (size chosen0) ≤ max_pick cluster L
           ∧ max_pick cluster L ≤ L)
    ∧ (∀ fuel tx s3,
         generate_transaction fuel items clusters cw w s = Ret (tx, s3) →
         ∃ chosen, fill fuel items w L chosen0 s2 = Ret (chosen, s3)
           ∧ Z.of_nat (size chosen) = L
           ∧ tx = filter (λ it, it ∈ chosen) items ∧ len tx = L)
    ∧ (fair items w →
         ∃ fuel tx s3,
           generate_transaction fuel items clusters cw w s = Ret (tx, s3)
           ∧ len tx = L).
Proof.
  intros Hnd Hn Hcs Hlen Hw.
  assert (items ≠ []) as Hne by (intros ->; unfold len in Hn; simpl in Hn; lia).
  destruct (choose_length_total (len items) s Hn) as (L & s1 & HL & HLn & HL5).
  destruct (seed_chosen_total items clusters cw L s1 Hcs)
    as (chosen0 & s2 & Hseed & Hsub0 & Hsize0 & _ & Hpick); [lia|].
  exists L, s1, chosen0, s2.
  split; [done|]. split; [lia|]. split; [done|]. split; [done|].
  split; [|split].
  - intros Hcne. destruct (Hpick Hcne) as (c & Hc & Hbounds).
    exists c. split; [done|]. split; [done|].
    destruct Hcs as (Hcs & _). rewrite Forall_forall in Hcs.
    destruct (Hcs c Hc) as (Hcne' & _). apply pick_bounds; [done|lia].
  - intros fuel tx s3. unfold generate_transaction.
    rewrite (bind_step _ _ _ _ _ HL), (bind_step _ _ _ _ _ Hseed).
    intros (chosen & s3' & Hfill & [<- <-]%ret_Ret)%bind_Ret.
    destruct (fill_Ret_size _ _ _ _ _ _ _ _ Hne Hlen Hw Hsub0 Hsize0 Hfill)
      as [Hsub Hsize].
    exists chosen. split; [done|]. split; [done|]. split; [done|].
    unfold len. by rewrite filter_chosen_length.
  - intros Hfair.
    destruct (generate_transaction_steps items clusters cw w s Hnd Hn Hcs Hlen Hw
      Hfair)
      as (fuel & L' & s1' & ? & ? & chosen & s3 & HL' & _ & _ & Hgen
          & _ & _ & _ & _ & _ & Htx).
    rewrite HL in HL'. injection HL' as <- <-. by eexists _, _, _.
Qed.

Lemma assemble_step_fuel_mono fuel fuel' items clusters cw w st (s : rng) r :
  (fuel ≤ fuel')%nat →
  assemble_step fuel items clusters cw w st s = Ret r →
  assemble_step fuel' items clusters cw w st s = Ret r.
Proof.
  intros Hle. destruct r as [st' s']. intros (tx & Hg & ->)%assemble_step_Ret.
  apply assemble_step_Ret. exists tx. split; [|done].
  by eapply generate_transaction_fuel_mono.
Qed.

(** The assembler returns when every attempt does: its loop goes round
    at most [max 0 (num_tx * 30)] times. An invariant of the attempts is
    carried to the final state. *)
Lemma assemble_total_inv (I : assembly → Prop) items clusters cw w num_tx (s : rng) :
  (∀ st s,
     I st →
     (len (transactions st) <? num_tx) && (attempts st <? num_tx * 30) = true →
     ∃ fuel st1 s1, assemble_step fuel items clusters cw w st s = Ret (st1, s1)
       ∧ I st1) →
  I (Assembly ∅ [] 0) →
  ∃ fuel st s', assemble fuel items clusters cw w num_tx s = Ret (st, s') ∧ I st
    ∧ (len (transactions st) <? num_tx) && (attempts st <? num_tx * 30) = false.
Proof.
  intros Hstep Hinit. unfold assemble.
  apply (while_total I (λ st, Z.to_nat (num_tx * 30 - attempts st))
           _ (λ fuel, assemble_step fuel items clusters cw w)); [| |done].
  - intros f f' st s0 r. apply assemble_step_fuel_mono.
  - intros st s0 HI Hcond.
    destruct (Hstep st s0 HI Hcond) as (f & st1 & s1 & Hs & HI1).
    exists f, st1, s1. split; [done|]. split; [done|].
    apply andb_true_iff in Hcond as [_ Hlt%Z.ltb_lt].
    apply assemble_step_Ret in Hs as (tx & _ & ->).
    destruct (decide _); simpl; lia.
Qed.

Lemma assemble_total items clusters cw w num_tx (s : rng) :
  NoDup items → 2 ≤ len items → clusters_ok items clusters cw →
  length w = length items → weights_usable w = true → fair items w →
  ∃ fuel st s', assemble fuel items clusters cw w num_tx s = Ret (st, s').
Proof.
  intros Hnd Hn Hcs Hlen Hw Hfair.
  destruct (assemble_total_inv (λ _, True) items clusters cw w num_tx s)
    as (fuel & st & s' & Ha & _); [|done|by eexists _, _, _].
  intros st s0 _ _.
  destruct (generate_transaction_steps items clusters cw w s0 Hnd Hn Hcs Hlen Hw Hfair)
    as (f1 & L & s1 & chosen0 & s2 & chosen & s3 & _ & _ & _ & Hgen & _).
  eexists f1, _, s3. split; [|done].
  apply assemble_step_Ret. by eexists.
Qed.

Variable fpow : float → float → float.

(** C4, as the program has it. On a universe of at least 2 items whose
    popularity weights [choices] accepts, and under a fair source, the
    run returns with status 0 after at most [max 0 (N * 30)] attempts.
    The retry budget bounds the attempts only: the fill loop inside an
    attempt goes on until the draws have produced enough distinct items,
    which is what fairness provides. *)
Theorem run_terminates fs prog spec count out N :
  Text.py_int count = Some N →
  2 ≤ len (load_items fs spec) →
  weights_usable (item_weights fpow (load_items fs spec)) = true →
  fair (load_items fs spec) (item_weights fpow (load_items fs spec)) →
  ∃ fuel o clusters cw s0 st s1,
    main fpow fuel fs [prog; spec; count; out] = Ret o
    ∧ exit_code o = 0
    ∧ build_clusters (load_items fs spec) (rng_seed 42) = Ret ((clusters, cw), s0)
    ∧ assemble fuel (load_items fs spec) clusters cw
        (item_weights fpow (load_items fs spec)) N s0 = Ret (st, s1)
    ∧ 0 ≤ attempts st ≤ Z.max 0 (N * 30).
Proof.
  intros Hcount Hn Hw Hfair.
  pose proof (load_items_NoDup fs spec) as Hnd.
  assert (load_items fs spec ≠ []) as Hne.
  { intros Heq. rewrite Heq in Hn. unfold len in Hn. simpl in Hn. lia. }
  destruct (build_clusters_total _ (rng_seed 42) Hnd)
    as (clusters & cw & s0 & Hb & _).
  pose proof (build_clusters_ok _ _ _ _ _ Hnd Hb) as Hcs.
  assert (length (item_weights fpow (load_items fs spec))
          = length (load_items fs spec)) as Hlen.
  { unfold item_weights, range. by rewrite !length_fmap, length_seq. }
  destruct (assemble_total _ clusters cw _ N s0 Hnd Hn Hcs Hlen Hw Hfair)
    as (fuel & st & s1 & Ha).
  exists fuel, (finish fs N out (transactions st)), clusters, cw, s0, st, s1.
  split; [|split; [done|split; [done|split; [done|]]]].
  - apply (main_Ret _ _ _ _ _ _ _ _ _ Hcount Hne). by eexists _, _, _, _, _.
  - by destruct (assemble_Ret _ _ _ _ _ _ _ _ _ Ha) as [[? _ _ _ _] _].
Qed.

(** On a universe of one item the fill loop never ends: the target
    length is 2 and the set cannot grow past one item. *)
Lemma fill_singleton_spins x w0 fuel (chosen : gset string) (s : rng) :
  weights_usable [w0] = true → chosen ⊆ {[x]} →
  fill fuel [x] [w0] 2 chosen s = OutOfFuel.
Proof.
  intros Hw. revert chosen s. induction fuel as [|fuel IH]; intros chosen s Hsub.
  all: assert (Z.of_nat (size chosen) < 2) as Hlt
    by (apply subseteq_size in Hsub; rewrite size_singleton in Hsub; lia).
  - unfold fill. simpl. by rewrite (proj2 (Z.ltb_lt _ _) Hlt).
  - destruct (draw_spec [x] [w0] s) as (y & s1 & Hdraw & Hy); [done..|].
    rewrite (fill_step _ _ _ _ _ _ _ _ Hlt Hdraw). apply IH.
    apply list_elem_of_singleton in Hy as ->. set_solver.
Qed.

Lemma generate_transaction_singleton x w0 fuel (s : rng) :
  weights_usable [w0] = true →
  generate_transaction fuel [x] [] [] [w0] s = OutOfFuel.
Proof.
  intros Hw. unfold generate_transaction, choose_length, seed_chosen. simpl.
  unfold bind, ret. by rewrite fill_singleton_spins.
Qed.

Lemma main_singleton_spins fuel fs prog spec count out N x :
  Text.py_int count = Some N → 1 ≤ N → load_items fs spec = [x] →
  weights_usable (item_weights fpow [x]) = true →
  main fpow fuel fs [prog; spec; count; out] = OutOfFuel.
Proof.
  intros Hcount HN Hitems Hw. unfold main. rewrite Hcount, Hitems.
  unfold build_clusters. simpl. unfold bind at 1, ret at 1.
  unfold assemble, bind at 1.
  destruct fuel as [|fuel].
  - rewrite while_O; [done|].
    apply andb_true_iff. split; apply Z.ltb_lt; unfold len; simpl; lia.
  - rewrite while_S.
    + unfold bind at 1, assemble_step, bind at 1.
      by rewrite (generate_transaction_singleton x _ (S fuel) (rng_seed 42) Hw).
    + apply andb_true_iff. split; apply Z.ltb_lt; unfold len; simpl; lia.
Qed.

(** C5. A universe of a single item: no clusters are built, the
    synthesizer asks for length 2, and it never returns, whatever the
    fuel: no transaction of length 1 is ever synthesized. *)
Theorem singleton_universe_never_returns x fuel (s : rng) :
  weights_usable (item_weights fpow [x]) = true →
  build_clusters [x] s = Ret (([], []), s)
  ∧ choose_length (len [x]) s = Ret (2, s)
  ∧ generate_transaction fuel [x] [] [] (item_weights fpow [x]) s = OutOfFuel.
Proof.
  intros Hw. split; [done|]. split; [done|].
  by apply generate_transaction_singleton.
Qed.

(** On 2 to 5 distinct items every transaction is the whole universe. *)
Lemma small_universe_length items clusters cw w (s : rng) :
  NoDup items → 2 ≤ len items ≤ 5 → clusters_ok items clusters cw →
  length w = length items → weights_usable w = true → fair items w →
  ∃ fuel s', generate_transaction fuel items clusters cw w s = Ret (items, s').
Proof.
  intros Hnd Hn Hcs Hlen Hw Hfair.
  destruct (generate_transaction_steps items clusters cw w s Hnd (proj1 Hn) Hcs Hlen
    Hw Hfair)
    as (fuel & L & s1 & chosen0 & s2 & chosen & s3 & _ & _ & _ & Hgen
        & _ & HL5 & _ & _ & _ & Htx).
  exists fuel, s3. rewrite Hgen. do 2 f_equal.
  rewrite HL5 in Htx by lia. apply filter_all. intros x Hx.
  destruct (decide (x ∈ chosen)) as [|Hout]; [done|].
  pose proof (length_filter_lt (λ it, it ∈ chosen) items x Hx Hout).
  unfold len in Htx. lia.
Qed.
(** A count of zero or less: the loop is not entered, and the run writes
    an empty file without a warning. *)
Lemma no_count_no_attempts fuel fs prog spec count out N :
  Text.py_int count = Some N → N ≤ 0 → load_items fs spec ≠ [] →
  ∃ clusters cw s0,
    build_clusters (load_items fs spec) (rng_seed 42) = Ret ((clusters, cw), s0)
    ∧ assemble fuel (load_items fs spec) clusters cw
        (item_weights fpow (load_items fs spec)) N s0
      = Ret (Assembly ∅ [] 0, s0)
    ∧ main fpow fuel fs [prog; spec; count; out]
      = Ret (Outcome 0 [wrote_msg 0 out] (<[out := ""]> fs)).
Proof.
  intros Hcount HN Hitems.
  destruct (build_clusters_total _ (rng_seed 42) (load_items_NoDup fs spec))
    as (clusters & cw & s0 & Hb & _).
  assert (assemble fuel (load_items fs spec) clusters cw
            (item_weights fpow (load_items fs spec)) N s0
          = Ret (Assembly ∅ [] 0, s0)) as Ha.
  { unfold assemble. destruct fuel; simpl;
      by rewrite (proj2 (Z.ltb_ge (len []) N)) by (unfold len; simpl; lia). }
  exists clusters, cw, s0. split; [done|]. split; [done|].
  apply (main_Ret fpow fuel fs prog spec count out N); [done..|].
  eexists _, _, _, _, _. split; [done|]. split; [done|].
  unfold finish. simpl.
  by rewrite (proj2 (Z.ltb_ge (len []) N)) by (unfold len; simpl; lia).
Qed.

(** With 2 to 5 items there is one transaction to find: a run for two or
    more transactions keeps it once and uses up its budget on repeats. *)
Lemma assemble_small_universe items clusters cw w N (s : rng) :
  NoDup items → 2 ≤ len items ≤ 5 → clusters_ok items clusters cw →
  length w = length items → weights_usable w = true → fair items w → 2 ≤ N →
  ∃ fuel s',
    assemble fuel items clusters cw w N s
    = Ret (Assembly {[items]} [items] (N * 30), s').
Proof.
  intros Hnd Hn Hcs Hlen Hw Hfair HN.
  destruct (assemble_total_inv
    (λ st, st = Assembly ∅ [] 0
           ∨ ∃ a, st = Assembly {[items]} [items] a ∧ 1 ≤ a ≤ N * 30)
    items clusters cw w N s) as (fuel & st & s' & Ha & HI & Hexit).
  - intros st s0 HI Hcond.
    destruct (small_universe_length items clusters cw w s0 Hnd Hn Hcs Hlen Hw Hfair)
      as (f & s1 & Hgen).
    eexists f, _, s1. split; [apply assemble_step_Ret; by eexists|].
    destruct HI as [->|(a & -> & Ha)]; simpl.
    + rewrite decide_False by set_solver. right. exists 1.
      rewrite (right_id_L ∅ (∪)). split; [done|lia].
    + apply andb_true_iff in Hcond as [_ Hlt%Z.ltb_lt]. simpl in Hlt.
      rewrite decide_True by set_solver. right. exists (a + 1).
      split; [done|lia].
  - by left.
  - exists fuel, s'. rewrite Ha. do 2 f_equal.
    destruct HI as [->|(a & -> & Hbound)]; simpl in Hexit.
    + apply andb_false_iff in Hexit as [Hge%Z.ltb_ge|Hge%Z.ltb_ge];
        unfold len in *; simpl in *; lia.
    + apply andb_false_iff in Hexit as [Hge%Z.ltb_ge|Hge%Z.ltb_ge];
        unfold len in *; simpl in *; [lia|]. f_equal. lia.
Qed.

(** The run on the inline universe "a b c" for 5 transactions: one line,
    the shortfall warning, after the 150 attempts of the budget. *)
Lemma three_items_five_requested fs prog out :
  fs !! "a b c" = None →
  weights_usable (item_weights fpow ["a"; "b"; "c"]) = true →
  fair ["a"; "b"; "c"] (item_weights fpow ["a"; "b"; "c"]) →
  ∃ fuel st s',
    assemble fuel ["a"; "b"; "c"] [] [] (item_weights fpow ["a"; "b"; "c"]) 5
      (rng_seed 42) = Ret (st, s')
    ∧ attempts st = 150
    ∧ main fpow fuel fs [prog; "a b c"; "5"; out]
      = Ret (Outcome 0 [warning_msg 1 5; wrote_msg 1 out]
               (<[out := "a b c" +:+ newline]> fs)).
Proof.
  intros Hfs Hw Hfair.
  assert (load_items fs "a b c" = ["a"; "b"; "c"]) as Hitems
    by by rewrite load_items_universe, Hfs.
  destruct (assemble_small_universe ["a"; "b"; "c"] [] []
    (item_weights fpow ["a"; "b"; "c"]) 5 (rng_seed 42)) as (fuel & s' & Ha);
    [apply (bool_decide_unpack _); by vm_compute|by vm_compute| |done|done|done|lia|].
  { split; [apply Forall_nil_2|done]. }
  eexists fuel, _, s'. split; [done|]. split; [done|].
  apply (main_Ret fpow fuel fs prog "a b c" "5" out 5); [done|by rewrite Hitems|].
  rewrite Hitems. by eexists [], [], (rng_seed 42), _, s'.
Qed.
End Lawful.

(** ** The round-robin source is lawful and fair *)

Lemma rotate_Permutation {A} (n : nat) (l : list A) : rotate n l ≡ₚ l.
Proof. unfold rotate. by rewrite Permutation_app_comm, take_drop. Qed.

Lemma cycle_spec {A} (pop : list A) k s :
  pop ≠ [] →
  length (Counter.cycle pop k s) = k ∧ ∀ x, x ∈ Counter.cycle pop k s → x ∈ pop.
Proof.
  intros Hne. revert s. induction k as [|k IH]; intros s; simpl.
  { split; [done|]. by intros x ?%elem_of_nil. }
  destruct (lookup_lt_is_Some_2 pop (s `mod` length pop)%nat) as [y Hy].
  { apply Nat.mod_upper_bound. by destruct pop. }
  rewrite Hy. simpl. destruct (IH (S s)) as [Hlen Hin]. split; [by rewrite Hlen|].
  intros x [->|Hx]%elem_of_cons; [by eapply list_elem_of_lookup_2|by apply Hin].
Qed.

#[global] Instance counter_laws : RandomLaws nat.
Proof.
  split.
  - intros a b s Hab. simpl. unfold Counter.randint.
    rewrite (proj2 (Z.ltb_ge b a)) by lia. eexists _, _. split; [done|].
    pose proof (Z.mod_pos_bound (Z.of_nat s) (b - a + 1)). lia.
  - intros A pop k s Hk. simpl. unfold Counter.sample.
    rewrite (proj2 (Z.ltb_ge k 0)), (proj2 (Z.ltb_ge (len pop) k)) by lia.
    eexists _, _. split; [done|]. split.
    + unfold len in *. rewrite length_take_le; [lia|]. rewrite length_rotate. lia.
    + rewrite <-(rotate_Permutation s pop) at 2. apply submseteq_take.
  - intros A pop w k s Hne Hlen Hw Hk. simpl. unfold Counter.choices.
    rewrite (proj2 (Nat.eqb_eq _ _) Hlen), Hw. simpl.
    destruct (cycle_spec pop (Z.to_nat k) s Hne) as [Hl Hin].
    eexists _, _. split; [done|]. split; [|done]. unfold len. rewrite Hl. lia.
Qed.

Lemma counter_draw (items : list string) w (s : nat) x :
  length w = length items → weights_usable w = true →
  items !! (s `mod` length items)%nat = Some x →
  draw items w s = Ret (x, S s).
Proof.
  intros Hlen Hw Hx. unfold draw, bind. simpl. unfold Counter.choices.
  rewrite (proj2 (Nat.eqb_eq _ _) Hlen), Hw. simpl. rewrite Hx. simpl.
  by rewrite Nat.add_1_r.
Qed.

Lemma counter_fair (items : list string) w :
  length w = length items → weights_usable w = true → fair items w.
Proof.
  intros Hlen Hw s x [i Hi]%list_elem_of_lookup_1.
  pose proof (lookup_lt_Some _ _ _ Hi) as Hlt.
  assert (∀ d s, ((s + d) mod length items = i)%nat → hits items w x s) as Hreach.
  { induction d as [|d IH]; intros s0 Hs0.
    - rewrite Nat.add_0_r in Hs0. eapply hits_now, counter_draw; [done..|].
      by rewrite Hs0.
    - destruct (lookup_lt_is_Some_2 items (s0 `mod` length items)%nat) as [y Hy].
      { apply Nat.mod_upper_bound. lia. }
      eapply hits_later; [by eapply counter_draw|]. apply IH.
      by rewrite <-Hs0, Nat.add_succ_r. }
  apply (Hreach (i + (length items - s mod length items))%nat).
  symmetry. apply (Nat.mod_unique _ _ (S (s / length items))); [done|].
  pose proof (Nat.div_mod_eq s (length items)) as Hdiv.
  pose proof (Nat.mod_upper_bound s (length items)). nia.
Qed.

(** ** Runs of the generator under the round-robin source *)

Example demo_items_loaded : load_items ∅ Demo.spec = Demo.items.
Proof. reflexivity. Qed.

Example demo_items_NoDup : NoDup Demo.items.
Proof. apply (bool_decide_unpack _). by vm_compute. Qed.

Example demo_clusters_built :
  build_clusters Demo.items (rng_seed 42)
  = Ret ((Demo.clusters, Demo.cluster_weights), 48%nat).
Proof. by vm_compute. Qed.

Example demo_assembled :
  assemble 20 Demo.items Demo.clusters Demo.cluster_weights Demo.weights 3 48%nat
  = Ret (Demo.final, 87%nat).
Proof. by vm_compute. Qed.

Example demo_weights_accepted : weights_usable Demo.weights = true.
Proof. by vm_compute. Qed.

Lemma runs_are_reproducible_witness :
  let fs1 : filesystem := ∅ in
  let fs2 : filesystem := {["notes.txt" := "milk, tea"]} in
  let o1 := finish fs1 3 "out.txt" Demo.dataset in
  let o2 := finish fs2 3 "out.txt" Demo.dataset in
  fs1 !! Demo.spec = fs2 !! Demo.spec
  ∧ main Counter.fpow 20 fs1 Demo.argv = Ret o1
  ∧ main Counter.fpow 25 fs2 ["gen"; Demo.spec; "3"; "out.txt"] = Ret o2
  ∧ (exit_code o1 = exit_code o2
     ∧ stdout o1 = stdout o2
     ∧ (exit_code o1 = 0 →
        ∃ bytes, files o1 !! "out.txt" = Some bytes
                 ∧ files o2 !! "out.txt" = Some bytes)).
Proof.
  intros fs1 fs2 o1 o2.
  assert (fs1 !! Demo.spec = fs2 !! Demo.spec) as Hfs by by vm_compute.
  assert (main Counter.fpow 20 fs1 Demo.argv = Ret o1) as H1 by by vm_compute.
  assert (main Counter.fpow 25 fs2 ["gen"; Demo.spec; "3"; "out.txt"] = Ret o2)
    as H2 by by vm_compute.
  split; [exact Hfs|]. split; [exact H1|]. split; [exact H2|].
  exact (runs_are_reproducible Counter.fpow 20 25 fs1 fs2 _ _ _ _ _ o1 o2 Hfs H1 H2).
Defined.

Lemma transactions_within_universe_witness :
  assemble 20 Demo.items Demo.clusters Demo.cluster_weights Demo.weights 3 48%nat
  = Ret (Demo.final, 87%nat)
  ∧ ∀ tx, tx ∈ transactions Demo.final →
      (∀ x, x ∈ tx → x ∈ Demo.items) ∧ tx `sublist_of` Demo.items.
Proof.
  assert (assemble 20 Demo.items Demo.clusters Demo.cluster_weights Demo.weights 3
            48%nat = Ret (Demo.final, 87%nat)) as Hrun by by vm_compute.
  split; [exact Hrun|].
  exact (transactions_within_universe _ _ _ _ _ _ _ _ _ Hrun).
Defined.

Lemma transactions_unique_witness :
  assemble 25 Demo.items Demo.clusters Demo.cluster_weights Demo.weights 3 48%nat
  = Ret (Demo.final, 87%nat)
  ∧ ∀ i j tx1 tx2,
      transactions Demo.final !! i = Some tx1 →
      transactions Demo.final !! j = Some tx2 →
      i ≠ j → tx1 ≠ tx2.
Proof.
  assert (assemble 25 Demo.items Demo.clusters Demo.cluster_weights Demo.weights 3
            48%nat = Ret (Demo.final, 87%nat)) as Hrun by by vm_compute.
  split; [exact Hrun|].
  exact (transactions_unique _ _ _ _ _ _ _ _ _ Hrun).
Defined.



Lemma build_clusters_spec_witness :
  NoDup Demo.items
  ∧ (len Demo.items < 4 → build_clusters Demo.items 42%nat = Ret (([], []), 42%nat))
  ∧ (4 ≤ len Demo.items →
     ∃ clusters cw s',
       build_clusters Demo.items 42%nat = Ret ((clusters, cw), s')
       ∧ len clusters = clamp (len Demo.items / 5) 3 10
       ∧ Forall (λ c, 3 ≤ len c ≤ Z.min 12 (len Demo.items)
                      ∧ NoDup c ∧ c ⊆+ Demo.items) clusters
       ∧ length cw = length clusters
       ∧ ∀ rank, (rank < length clusters)%nat →
           cw !! rank = Some (1 / float_of_Z (Z.of_nat rank + 1))%float).
Proof.
  assert (NoDup Demo.items) as Hnd by (apply (bool_decide_unpack _); by vm_compute).
  split; [exact Hnd|].
  exact (build_clusters_spec Demo.items 42%nat Hnd).
Defined.

Lemma generate_transaction_length_witness :
  NoDup Demo.items ∧ 2 ≤ len Demo.items
  ∧ clusters_ok Demo.items Demo.clusters Demo.cluster_weights
  ∧ length Demo.weights = length Demo.items
  ∧ weights_usable Demo.weights = true
  ∧ ∃ L s1 chosen0 s2,
      choose_length (len Demo.items) 48%nat = Ret (L, s1) ∧ L ≤ len Demo.items
      ∧ seed_chosen Demo.clusters Demo.cluster_weights L s1 = Ret (chosen0, s2)
      ∧ Z.of_nat (size chosen0) ≤ L
      ∧ (Demo.clusters ≠ [] →
           ∃ cluster, cluster ∈ Demo.clusters
             ∧ min_pick cluster ≤ Z.of_nat (size chosen0) ≤ max_pick cluster L
             ∧ max_pick cluster L ≤ L)
      ∧ (∀ fuel tx s3,
           generate_transaction fuel Demo.items Demo.clusters Demo.cluster_weights
             Demo.weights 48%nat = Ret (tx, s3) →
           ∃ chosen, fill fuel Demo.items Demo.weights L chosen0 s2 = Ret (chosen, s3)
             ∧ Z.of_nat (size chosen) = L
             ∧ tx = filter (λ it, it ∈ chosen) Demo.items ∧ len tx = L)
      ∧ (fair Demo.items Demo.weights →
           ∃ fuel tx s3,
             generate_transaction fuel Demo.items Demo.clusters
               Demo.cluster_weights Demo.weights 48%nat = Ret (tx, s3)
             ∧ len tx = L).
Proof.
  assert (NoDup Demo.items) as Hnd by (apply (bool_decide_unpack _); by vm_compute).
  assert (2 ≤ len Demo.items) as Hn by by vm_compute.
  assert (clusters_ok Demo.items Demo.clusters Demo.cluster_weights) as Hcs.
  { apply (build_clusters_ok Demo.items (rng_seed 42) _ _ 48%nat Hnd).
    by vm_compute. }
  assert (length Demo.weights = length Demo.items) as Hlen by reflexivity.
  assert (weights_usable Demo.weights = true) as Hw by by vm_compute.
  split; [exact Hnd|]. split; [exact Hn|]. split; [exact Hcs|].
  split; [exact Hlen|]. split; [exact Hw|].
  exact (generate_transaction_length Demo.items Demo.clusters Demo.cluster_weights
           Demo.weights 48%nat Hnd Hn Hcs Hlen Hw).
Defined.

Lemma run_terminates_witness :
  let fs : filesystem := ∅ in
  let items := load_items fs Demo.spec in
  Text.py_int "3" = Some 3
  ∧ 2 ≤ len items
  ∧ weights_usable (item_weights Counter.fpow items) = true
  ∧ fair items (item_weights Counter.fpow items)
  ∧ ∃ fuel o clusters cw s0 st s1,
      main Counter.fpow fuel fs Demo.argv = Ret o
      ∧ exit_code o = 0
      ∧ build_clusters items (rng_seed 42) = Ret ((clusters, cw), s0)
      ∧ assemble fuel items clusters cw (item_weights Counter.fpow items) 3 s0
        = Ret (st, s1)
      ∧ 0 ≤ attempts st ≤ Z.max 0 (3 * 30).
Proof.
  intros fs items.
  assert (Text.py_int "3" = Some 3) as Hcount by reflexivity.
  assert (2 ≤ len items) as Hn by by vm_compute.
  assert (weights_usable (item_weights Counter.fpow items) = true) as Hw
    by by vm_compute.
  assert (fair items (item_weights Counter.fpow items)) as Hfair
    by (apply counter_fair; [reflexivity|exact Hw]).
  split; [exact Hcount|]. split; [exact Hn|]. split; [exact Hw|].
  split; [exact Hfair|].
  exact (run_terminates Counter.fpow fs "generate_transactions.py" Demo.spec "3"
           "out.txt" 3 Hcount Hn Hw Hfair).
Defined.

Lemma singleton_universe_never_returns_witness :
  weights_usable (item_weights Counter.fpow ["a"]) = true
  ∧ build_clusters ["a"] 42%nat = Ret (([], []), 42%nat)
  ∧ choose_length (len ["a"]) 42%nat = Ret (2, 42%nat)
  ∧ generate_transaction 1000 ["a"] [] [] (item_weights Counter.fpow ["a"]) 42%nat
    = OutOfFuel.
Proof.
  assert (weights_usable (item_weights Counter.fpow ["a"]) = true) as Hw
    by by vm_compute.
  split; [exact Hw|].
  exact (singleton_universe_never_returns Counter.fpow "a" 1000 42%nat Hw).
Defined.

(** C4, as stated, fails: the universe of the single item "a" is not
    empty, the count is 1, and the run is still looping whatever fuel it
    is given. The same holds under every lawful source
    ([main_singleton_spins]). *)
Lemma singleton_run_never_returns :
  load_items ∅ "a" = ["a"] ∧ Text.py_int "1" = Some 1
  ∧ ∀ fuel,
      main Counter.fpow fuel ∅ ["generate_transactions.py"; "a"; "1"; "out.txt"]
      = OutOfFuel.
Proof.
  split; [reflexivity|]. split; [reflexivity|]. intros fuel.
  apply (main_singleton_spins Counter.fpow fuel ∅ _ "a" "1" _ 1 "a");
    [reflexivity|lia|reflexivity|by vm_compute].
Qed.

(** * Further properties of the generator *)

(** ** What every kept transaction looks like *)

Section Kept.
Context {rng : Type} `{!Random rng}.

(** A property of every transaction the synthesizer returns holds of
    every transaction of the dataset. *)
Lemma assemble_Ret_Forall (P : list string → Prop) fuel items clusters cw w num_tx
    (s : rng) st s' :
  (∀ r tx r', generate_transaction fuel items clusters cw w r = Ret (tx, r') → P tx) →
  assemble fuel items clusters cw w num_tx s = Ret (st, s') →
  Forall P (transactions st).
Proof.
  intros HP Ha. unfold assemble in Ha.
  eapply (while_Ret (λ st, Forall P (transactions st))) in Ha as [HF _];
    [done| |apply Forall_nil_2].
  intros st0 r st1 r' HF _ (tx & Hg & ->)%assemble_step_Ret.
  destruct (decide _); simpl; [done|].
  apply Forall_app. split; [done|]. apply Forall_singleton. by eapply HP.
Qed.

(** The first attempt is always kept, and no transaction is kept without
    an attempt. *)
Lemma assemble_Ret_counts fuel items clusters cw w num_tx (s : rng) st s' :
  assemble fuel items clusters cw w num_tx s = Ret (st, s') →
  len (transactions st) ≤ attempts st
  ∧ (0 < attempts st → transactions st ≠ []).
Proof.
  intros Ha. unfold assemble in Ha.
  eapply (while_Ret (λ st,
    (∀ tx, tx ∈ seen st → tx ∈ transactions st)
    ∧ len (transactions st) ≤ attempts st
    ∧ 0 ≤ attempts st
    ∧ (0 < attempts st → transactions st ≠ []))) in Ha as [(_ & ? & _ & ?) _];
    [done| |].
  - intros st0 r st1 r' (Hseen & Hle & H0 & Hne) _ (tx & Hg & ->)%assemble_step_Ret.
    destruct (decide (tx ∈ seen st0)) as [Hin|Hin]; simpl.
    + split; [done|]. split; [lia|]. split; [lia|]. intros _ Hnil.
      apply Hseen in Hin. rewrite Hnil in Hin. by apply elem_of_nil in Hin.
    + split; [|split; [|split; [lia|]]].
      * intros tx'. rewrite elem_of_union, elem_of_singleton, elem_of_app,
          list_elem_of_singleton. naive_solver.
      * unfold len in *. rewrite length_app. simpl. lia.
      * intros _. by destruct (transactions st0).
  - simpl. split; [set_solver|]. unfold len. simpl. split; [lia|]. split; lia.
Qed.
End Kept.

Section Lengths.
Context {rng : Type} `{!Random rng} `{!RandomLaws rng}.

(** The length step 1 chooses: at least 2 whatever the universe, the
    universe size (or 2) on at most 5 items, between 3 and 20 otherwise. *)
Lemma choose_length_bounds n (s : rng) :
  ∃ L s', choose_length n s = Ret (L, s')
    ∧ 2 ≤ L
    ∧ (n ≤ 5 → L = Z.max 2 n)
    ∧ (5 < n → 3 ≤ L ≤ Z.min n 20).
Proof.
  unfold choose_length.
  destruct (n <=? 5) eqn:H5; [apply Z.leb_le in H5|apply Z.leb_gt in H5].
  { eexists _, _. split; [done|]. lia. }
  unfold random, bind at 1. destruct (rng_random s) as [r s1].
  assert (∀ a b, 3 ≤ a ≤ b → b ≤ 20 →
    ∃ L s', (let* x := rng_randint a b in ret (Z.min n x)) s1 = Ret (L, s')
      ∧ 2 ≤ L ∧ (n ≤ 5 → L = Z.max 2 n) ∧ (5 < n → 3 ≤ L ≤ Z.min n 20))
    as Hbranch.
  { intros a b Hab Hb. destruct (randint_spec a b s1) as (x & s2 & Hr & Hx); [lia|].
    eexists _, _. rewrite (bind_step _ _ _ _ _ Hr). split; [done|]. lia. }
  destruct (r <? 0.10)%float; [apply Hbranch; lia|].
  destruct (r <? 0.70)%float; apply Hbranch; lia.
Qed.

(** What a returned transaction is: as long as the chosen length, which
    the universe size bounds. *)
Lemma generate_transaction_Ret fuel items clusters cw w (s : rng) tx s3 :
  NoDup items → items ≠ [] → clusters_ok items clusters cw →
  length w = length items → weights_usable w = true →
  generate_transaction fuel items clusters cw w s = Ret (tx, s3) →
  2 ≤ len tx ≤ Z.min (len items) 20
  ∧ (5 < len items → 3 ≤ len tx)
  ∧ (len items ≤ 5 → tx = items).
Proof.
  intros Hnd Hne Hcs Hlen Hw. unfold generate_transaction.
  destruct (choose_length_bounds (len items) s) as (L & s1 & HL & HL2 & HL5 & HL6).
  destruct (seed_chosen_total items clusters cw L s1 Hcs HL2)
    as (chosen0 & s2 & Hseed & Hsub0 & Hsize0 & _).
  rewrite (bind_step _ _ _ _ _ HL), (bind_step _ _ _ _ _ Hseed).
  intros (chosen & s3' & Hfill & [<- <-]%ret_Ret)%bind_Ret.
  destruct (fill_Ret_size _ _ _ _ _ _ _ _ Hne Hlen Hw Hsub0 Hsize0 Hfill)
    as [Hsub Hsize].
  pose proof (filter_chosen_length items chosen Hnd Hsub) as Hflen.
  pose proof (length_filter (λ it, it ∈ chosen) items) as Hfle.
  assert (len (filter (λ it, it ∈ chosen) items) = L) as Htx
    by (unfold len; lia).
  assert (L ≤ len items) as HLn by (unfold len in *; lia).
  split; [|split].
  - destruct (decide (len items ≤ 5)); lia.
  - lia.
  - intros H5. apply filter_all. intros x Hx.
    destruct (decide (x ∈ chosen)) as [|Hout]; [done|].
    pose proof (length_filter_lt (λ it, it ∈ chosen) items x Hx Hout).
    unfold len in *. lia.
Qed.
End Lengths.

Lemma NoDup_all_equal {A} (a : A) (l : list A) :
  NoDup l → Forall (λ x, x = a) l → l ≠ [] → l = [a].
Proof.
  intros Hnd Hall Hne. destruct l as [|x [|y l]]; [done| |].
  - by apply Forall_singleton in Hall as ->.
  - apply Forall_cons in Hall as [-> [-> _]%Forall_cons].
    apply NoDup_cons in Hnd as [Hin _]. exfalso. apply Hin. left.
Qed.

Section Runs.
Context {rng : Type} `{!Random rng} `{!RandomLaws rng}.
Variable fpow : float → float → float.

Lemma item_weights_length items : length (item_weights fpow items) = length items.
Proof. unfold item_weights, range. by rewrite !length_fmap, length_seq. Qed.

(** X1. The cluster builder followed by the assembler, as [main] runs
    them on a universe of distinct items: every transaction of the
    dataset has at least 2 and at most 20 items, never more than the
    universe has, and at least 3 when the universe has more than 5. *)
Theorem dataset_transaction_lengths items N fuel (s0 : rng) clusters cw s1 st s2 :
  NoDup items → items ≠ [] →
  weights_usable (item_weights fpow items) = true →
  build_clusters items s0 = Ret ((clusters, cw), s1) →
  assemble fuel items clusters cw (item_weights fpow items) N s1 = Ret (st, s2) →
  ∀ tx, tx ∈ transactions st →
    2 ≤ len tx ≤ Z.min (len items) 20 ∧ (5 < len items → 3 ≤ len tx).
Proof.
  intros Hnd Hne Hw Hb Ha tx Htx.
  pose proof (build_clusters_ok _ _ _ _ _ Hnd Hb) as Hcs.
  eapply (assemble_Ret_Forall
    (λ tx, 2 ≤ len tx ≤ Z.min (len items) 20 ∧ (5 < len items → 3 ≤ len tx)))
    in Ha.
  - rewrite Forall_forall in Ha. by apply Ha.
  - intros r tx' r' Hg.
    destruct (generate_transaction_Ret _ _ _ _ _ _ _ _ Hnd Hne Hcs
      (item_weights_length items) Hw Hg) as (? & ? & _). done.
Qed.

(** X2. On a universe of 2 to 5 distinct items there is one transaction
    only: whatever the synthesizer returns is the whole universe, in
    universe order, and under a fair source it does return it. *)
Theorem small_universe_transaction items clusters cw w :
  NoDup items → 2 ≤ len items ≤ 5 → clusters_ok items clusters cw →
  length w = length items → weights_usable w = true →
  (∀ fuel (s : rng) tx s',
     generate_transaction fuel items clusters cw w s = Ret (tx, s') → tx = items)
  ∧ (fair items w →
     ∀ s : rng, ∃ fuel s',
       generate_transaction fuel items clusters cw w s = Ret (items, s')).
Proof.
  intros Hnd Hn Hcs Hlen Hw.
  assert (items ≠ []) as Hne by (intros ->; unfold len in Hn; simpl in Hn; lia).
  split.
  - intros fuel s tx s' Hg.
    destruct (generate_transaction_Ret _ _ _ _ _ _ _ _ Hnd Hne Hcs Hlen Hw Hg)
      as (_ & _ & Hall). apply Hall. lia.
  - intros Hfair s. by apply small_universe_length.
Qed.

(** X3. A run for [N >= 1] transactions on a universe of 2 to 5 items:
    every completed run writes exactly one line, the whole universe, and
    prints the shortfall warning exactly when [N >= 2]; under a fair
    source the run completes. *)
Theorem small_universe_run fs prog spec count out N :
  Text.py_int count = Some N → 1 ≤ N →
  2 ≤ len (load_items fs spec) ≤ 5 →
  weights_usable (item_weights fpow (load_items fs spec)) = true →
  (∀ fuel o,
     main fpow fuel fs [prog; spec; count; out] = Ret o →
     o = Outcome 0
           ((if 1 <? N then [warning_msg 1 N] else []) ++ [wrote_msg 1 out])
           (<[out := Text.join " " (load_items fs spec) +:+ newline]> fs))
  ∧ (fair (load_items fs spec) (item_weights fpow (load_items fs spec)) →
     ∃ fuel o, main fpow fuel fs [prog; spec; count; out] = Ret o).
Proof.
  intros Hcount HN Hn Hw.
  pose proof (load_items_NoDup fs spec) as Hnd.
  assert (load_items fs spec ≠ []) as Hne.
  { intros Heq. rewrite Heq in Hn. unfold len in Hn. simpl in Hn. lia. }
  split.
  - intros fuel o Hmain.
    apply (main_Ret _ _ _ _ _ _ _ _ _ Hcount Hne) in Hmain
      as (clusters & cw & s0 & st & s1 & Hb & Ha & ->).
    pose proof (build_clusters_ok _ _ _ _ _ Hnd Hb) as Hcs.
    destruct (assemble_Ret _ _ _ _ _ _ _ _ _ Ha) as [[_ _ _ Hnodup _] Hexit].
    destruct (assemble_Ret_counts _ _ _ _ _ _ _ _ _ Ha) as [Hle Hkept].
    assert (transactions st = [load_items fs spec]) as ->.
    { apply NoDup_all_equal; [done| |].
      - eapply assemble_Ret_Forall; [|done]. intros r tx r' Hg.
        destruct (generate_transaction_Ret _ _ _ _ _ _ _ _ Hnd Hne Hcs
          (item_weights_length _) Hw Hg) as (_ & _ & Hall). apply Hall. lia.
      - destruct Hexit as [Hlen|Hatt]; [|apply Hkept; lia].
        intros Hnil. rewrite Hnil in Hlen. unfold len in Hlen. simpl in Hlen. lia. }
    unfold finish, serialize. simpl. by rewrite append_empty_r.
  - intros Hfair.
    destruct (build_clusters_total _ (rng_seed 42) Hnd)
      as (clusters & cw & s0 & Hb & _).
    pose proof (build_clusters_ok _ _ _ _ _ Hnd Hb) as Hcs.
    destruct (assemble_total _ clusters cw _ N s0 Hnd (proj1 Hn) Hcs
      (item_weights_length _) Hw Hfair) as (fuel & st & s1 & Ha).
    exists fuel, (finish fs N out (transactions st)).
    apply (main_Ret _ _ _ _ _ _ _ _ _ Hcount Hne). by eexists _, _, _, _, _.
Qed.

(** X4. A run for a count of zero or less, on any non-empty universe:
    the assembler's loop is not entered, no attempt is made, and the run
    ends with status 0 having written an empty file and printed no
    warning. *)
Theorem nonpositive_count_run fuel fs prog spec count out N :
  Text.py_int count = Some N → N ≤ 0 → load_items fs spec ≠ [] →
  main fpow fuel fs [prog; spec; count; out]
  = Ret (Outcome 0 [wrote_msg 0 out] (<[out := ""]> fs))
  ∧ ∀ clusters cw (s : rng),
      assemble fuel (load_items fs spec) clusters cw
        (item_weights fpow (load_items fs spec)) N s
      = Ret (Assembly ∅ [] 0, s).
Proof.
  intros Hcount HN Hne. split.
  - by destruct (no_count_no_attempts fpow fuel fs prog spec count out N Hcount HN Hne)
      as (? & ? & ? & _ & _ & ?).
  - intros clusters cw s. unfold assemble. destruct fuel; simpl;
      by rewrite (proj2 (Z.ltb_ge (len []) N)) by (unfold len; simpl; lia).
Qed.
End Runs.

Section Program2.
Context {rng : Type} `{!Random rng}.
Variable fpow : float → float → float.

End Program2.

(** ** The output file read back as text *)

Lemma all_chars_impl (P Q : ascii → bool) s :
  (∀ c, P c = true → Q c = true) → all_chars P s = true → all_chars Q s = true.
Proof.
  intros HPQ. induction s as [|c s IH]; simpl; [done|].
  intros [Hc Hs]%andb_true_iff. by rewrite (HPQ c Hc), IH.
Qed.

Lemma all_chars_app P s1 s2 :
  all_chars P (s1 +:+ s2) = all_chars P s1 && all_chars P s2.
Proof.
  induction s1 as [|c s1 IH]; [done|].
  change (String c s1 +:+ s2) with (String c (s1 +:+ s2)). simpl.
  by rewrite IH, andb_assoc.
Qed.

Lemma rev_app_rev_app s1 s2 s3 :
  String.rev_app (String.rev_app s1 s2) s3 = String.rev_app s2 (s1 +:+ s3).
Proof.
  revert s2 s3. induction s1 as [|c s1 IH]; intros s2 s3; [done|].
  simpl. by rewrite IH.
Qed.

Lemma rev_rev s : String.rev (String.rev s) = s.
Proof. unfold String.rev. by rewrite rev_app_rev_app, append_empty_r. Qed.

(** Reading a run of characters that are not white space. *)
Lemma split_go_word t cur s :
  all_chars (λ c, negb (Text.isspace c)) t = true →
  Text.split_go cur (t +:+ s) = Text.split_go (String.rev_app t cur) s.
Proof.
  revert cur. induction t as [|c t IH]; intros cur; [done|].
  change (String c t +:+ s) with (String c (t +:+ s)). simpl.
  intros [Hc Ht]%andb_true_iff. apply negb_true_iff in Hc. rewrite Hc. by apply IH.
Qed.

Lemma split_word t s :
  t ≠ "" → all_chars (λ c, negb (Text.isspace c)) t = true → at_boundary s →
  Text.split (t +:+ s) = t :: Text.split s.
Proof.
  intros Hne Ht Hs. unfold Text.split. rewrite split_go_word by done.
  assert (String.rev_app t "" ≠ "") as Hrev.
  { destruct t as [|c t]; [done|]. simpl. by apply rev_app_nonempty. }
  fold (String.rev t) in *.
  destruct s as [|c s]; simpl in *.
  - destruct (String.rev t) eqn:Hr; [done|]. by rewrite <-Hr, rev_rev.
  - rewrite Hs. destruct (String.rev t) eqn:Hr; [done|]. by rewrite <-Hr, rev_rev.
Qed.

Lemma split_space c s :
  Text.isspace c = true → Text.split (String c s) = Text.split s.
Proof. intros Hc. unfold Text.split. simpl. by rewrite Hc. Qed.

Lemma well_formed_item_word t :
  well_formed_item t →
  t ≠ "" ∧ all_chars (λ c, negb (Text.isspace c)) t = true
  ∧ all_chars (λ c, negb (Ascii.eqb c ",")) t = true.
Proof.
  intros [Hne Hchars]. split; [done|]. unfold item_char in Hchars.
  split; (eapply all_chars_impl; [|done]); by intros c [? ?]%andb_true_iff.
Qed.

(** Splitting a space-joined line gives its items back. *)
Lemma split_join tx s :
  Forall well_formed_item tx → at_boundary s →
  Text.split (Text.join " " tx +:+ s) = tx ++ Text.split s.
Proof.
  intros Htx Hs. induction Htx as [|x tx Hx Htx IH]; [done|].
  apply well_formed_item_word in Hx as (Hne & Hsp & _).
  destruct tx as [|y tx].
  - simpl. by apply split_word.
  - change (Text.join " " (x :: y :: tx))
      with (x +:+ " " +:+ Text.join " " (y :: tx)).
    rewrite !append_assoc, split_word by done.
    change (" " +:+ ?r) with (String " " r).
    rewrite split_space by done. by rewrite IH.
Qed.

Lemma split_serialize txs :
  Forall (Forall well_formed_item) txs → Text.split (serialize txs) = concat txs.
Proof.
  induction 1 as [|tx txs Htx _ IH]; [done|]. simpl.
  rewrite split_join; [|done|done]. f_equal.
  change (newline +:+ ?r) with (String "010" r). by rewrite split_space.
Qed.

Lemma replace_commas_id s :
  all_chars (λ c, negb (Ascii.eqb c ",")) s = true → Text.replace_commas s = s.
Proof.
  induction s as [|c s IH]; simpl; [done|].
  intros [Hc Hs]%andb_true_iff. apply negb_true_iff in Hc. by rewrite Hc, IH.
Qed.

Lemma join_chars P tx :
  P " "%char = true → Forall (λ t, all_chars P t = true) tx →
  all_chars P (Text.join " " tx) = true.
Proof.
  intros Hsp. induction 1 as [|x tx Hx Htx IH]; [done|].
  destruct tx as [|y tx]; [done|].
  change (Text.join " " (x :: y :: tx))
    with (x +:+ " " +:+ Text.join " " (y :: tx)).
  rewrite !all_chars_app, Hx, IH. simpl. by rewrite Hsp.
Qed.

Lemma serialize_chars P txs :
  P " "%char = true → P "010"%char = true →
  Forall (Forall (λ t, all_chars P t = true)) txs →
  all_chars P (serialize txs) = true.
Proof.
  intros Hsp Hnl. induction 1 as [|tx txs Htx _ IH]; [done|]. simpl.
  rewrite !all_chars_app, join_chars, IH by done. simpl. by rewrite Hnl.
Qed.

(** Transactions within a universe of well-formed items are made of
    well-formed items. *)
Lemma sublists_well_formed items txs :
  Forall well_formed_item items →
  Forall (λ tx, tx `sublist_of` items) txs →
  Forall (Forall well_formed_item) txs.
Proof.
  intros Hitems Htxs. eapply Forall_impl; [done|]. intros tx Hsub.
  rewrite Forall_forall in Hitems. apply Forall_forall. intros x Hx.
  apply Hitems. by apply (sublist_subseteq _ _ Hsub).
Qed.

Lemma elem_of_concat {A} (x : A) (ls : list (list A)) :
  x ∈ concat ls ↔ ∃ l, x ∈ l ∧ l ∈ ls.
Proof.
  induction ls as [|l ls IH]; simpl.
  - split; [by intros ?%elem_of_nil|by intros (? & _ & ?%elem_of_nil)].
  - rewrite elem_of_app, IH. split.
    + intros [Hx|(l' & Hx & Hl')]; [exists l|exists l']; split; try done;
        [left|by right].
    + intros (l' & Hx & [->|Hl']%elem_of_cons); [by left|right; by exists l'].
Qed.

Section Reload.
Context {rng : Type} `{!Random rng}.
Variable fpow : float → float → float.

(** X6. The file a completed run writes, read back the way the loader
    reads an item file: splitting its text on white space gives the items
    of the transactions in the order written, so loading the output path
    as an item specification yields the items the dataset uses, each at
    its first use, all of them items of the original universe. *)
Theorem output_reloads fuel fs prog spec count out N o :
  Text.py_int count = Some N → load_items fs spec ≠ [] →
  main fpow fuel fs [prog; spec; count; out] = Ret o →
  ∃ txs,
    files o !! out = Some (serialize txs)
    ∧ Text.split (serialize txs) = concat txs
    ∧ load_items (files o) out = first_seen (concat txs)
    ∧ ∀ x, x ∈ load_items (files o) out → x ∈ load_items fs spec.
Proof.
  intros Hcount Hne Hmain.
  apply (main_Ret _ _ _ _ _ _ _ _ _ Hcount Hne) in Hmain
    as (clusters & cw & s0 & st & s1 & Hb & Ha & ->).
  destruct (assemble_Ret _ _ _ _ _ _ _ _ _ Ha) as [[_ _ _ _ Hsub] _].
  assert (Forall well_formed_item (load_items fs spec)) as Hitems
    by (rewrite load_items_universe; apply universe_well_formed).
  pose proof (sublists_well_formed _ _ Hitems Hsub) as Hwf.
  assert (files (finish fs N out (transactions st)) !! out
          = Some (serialize (transactions st))) as Hfile
    by (unfold finish; simpl; by rewrite lookup_insert_eq).
  assert (load_items (files (finish fs N out (transactions st))) out
          = first_seen (concat (transactions st))) as Hload.
  { rewrite load_items_universe, Hfile. simpl. unfold universe_of_text.
    rewrite replace_commas_id, split_serialize; [done..|].
    apply serialize_chars; [done..|].
    eapply Forall_impl; [done|]. intros tx Htx.
    eapply Forall_impl; [done|].
    by intros t (_ & _ & ?)%well_formed_item_word. }
  exists (transactions st). split; [done|]. split; [by apply split_serialize|].
  split; [done|]. intros x. rewrite Hload, first_seen_elem_of.
  intros (tx & Hx & Htx)%elem_of_concat.
  rewrite Forall_forall in Hsub. by apply (sublist_subseteq _ _ (Hsub tx Htx)).
Qed.
End Reload.

(** ** When the universe comes out empty *)




Section EmptyUniverse.
Context {rng : Type} `{!Random rng}.
Variable fpow : float → float → float.

End EmptyUniverse.

(** ** No exception escapes a run *)

Section NoException.
Context {rng : Type}.


End NoException.

Section NoExceptionRun.
Context {rng : Type} `{!Random rng} `{!RandomLaws rng}.
Variable fpow : float → float → float.


End NoExceptionRun.

(** * The label maps of the converter *)

Lemma enumerate_snoc {X} (l : list X) x :
  Convert.enumerate (l ++ [x]) = Convert.enumerate l ++ [(length l, x)].
Proof.
  unfold Convert.enumerate. rewrite length_app, seq_app. simpl.
  by rewrite zip_with_app by by rewrite length_seq.
Qed.

Lemma enumerate_lookup {X} (l : list X) i x :
  Convert.enumerate l !! i = Some x ↔ ∃ y, x = (i, y) ∧ l !! i = Some y.
Proof.
  unfold Convert.enumerate. rewrite lookup_zip_with_Some. split.
  - intros (j & y & -> & Hj & Hy). apply lookup_seq in Hj as [-> _]. eauto.
  - intros (y & -> & Hy). exists i, y. split_and!; [done| |done].
    apply lookup_seq. split; [done|]. by eapply lookup_lt_Some.
Qed.

Section IndexMap.
Context `{Countable K}.
Implicit Types l : list K.

Lemma index_map_snoc l x :
  Convert.index_map (l ++ [x]) = <[x := length l]> (Convert.index_map l).
Proof. unfold Convert.index_map. by rewrite enumerate_snoc, foldl_app. Qed.

Lemma index_map_lookup l x i :
  NoDup l → Convert.index_map l !! x = Some i ↔ l !! i = Some x.
Proof.
  induction l as [|y l IH] using rev_ind; intros Hnd.
  { unfold Convert.index_map. simpl. by rewrite lookup_empty. }
  apply NoDup_app in Hnd as (Hnd & Hy & _). rewrite index_map_snoc.
  destruct (decide (x = y)) as [->|Hxy].
  - rewrite lookup_insert_eq. split.
    + intros [= <-]. by rewrite list_lookup_middle.
    + intros Hi. destruct (decide (i < length l)%nat) as [Hlt|Hge].
      * rewrite lookup_app_l in Hi by done.
        destruct (Hy y); [by eapply list_elem_of_lookup_2|set_solver].
      * apply lookup_lt_Some in Hi as Hlen. rewrite length_app in Hlen.
        simpl in Hlen. f_equal. lia.
  - rewrite lookup_insert_ne by done. rewrite IH by done. split.
    + intros Hi. by rewrite lookup_app_l by by eapply lookup_lt_Some.
    + intros Hi. destruct (decide (i < length l)%nat) as [Hlt|Hge].
      * by rewrite lookup_app_l in Hi.
      * rewrite lookup_app_r in Hi by lia.
        apply list_lookup_singleton_Some in Hi as [_ ?]. congruence.
Qed.

Lemma index_map_size l : NoDup l → size (Convert.index_map l) = length l.
Proof.
  induction l as [|y l IH] using rev_ind; intros Hnd.
  { unfold Convert.index_map. simpl. by rewrite map_size_empty. }
  apply NoDup_app in Hnd as Hnd'. destruct Hnd' as (Hnd' & Hy & _).
  rewrite index_map_snoc, map_size_insert_None, IH, length_app; simpl; [lia|done|].
  destruct (Convert.index_map l !! y) as [i|] eqn:Hi; [|done].
  apply index_map_lookup in Hi; [|done].
  destruct (Hy y); [by eapply list_elem_of_lookup_2|set_solver].
Qed.

End IndexMap.

Lemma StronglySorted_lookup {A} (R : relation A) l i j x y :
  StronglySorted R l → l !! i = Some x → l !! j = Some y → (i < j)%nat → R x y.
Proof.
  intros Hs. revert i j. induction Hs as [|z l Hs IH Hz]; intros i j Hi Hj Hlt.
  { done. }
  destruct j as [|j]; [lia|]. simpl in Hj. destruct i as [|i].
  - simplify_eq/=. eapply Forall_forall in Hz; [done|]. by eapply list_elem_of_lookup_2.
  - simpl in Hi. eapply IH; [done..|lia].
Qed.

(** The map made from a set of labels by sorting and numbering. *)
Section SortedIndex.
Context `{Countable K} (R : relation K) `{!∀ x y, Decision (R x y)}.
Context `{!PartialOrder R, !Total R}.

Lemma sorted_index_map (labels : gset K) :
  let m := Convert.index_map (merge_sort R (elements labels)) in
  (∀ label, is_Some (m !! label) ↔ label ∈ labels)
  ∧ (∀ a b i j, m !! a = Some i → m !! b = Some j → (i ≤ j)%nat ↔ R a b)
  ∧ (∀ idx, (idx < size m)%nat ↔ ∃ label, m !! label = Some idx)
  ∧ size m = size labels.
Proof.
  intros m. set (l := merge_sort R (elements labels)) in *.
  assert (l ≡ₚ elements labels) as Hperm by apply merge_sort_Permutation.
  assert (NoDup l) as Hnd by (rewrite Hperm; apply NoDup_elements).
  assert (StronglySorted R l) as Hs by apply (StronglySorted_merge_sort R).
  assert (∀ x i, m !! x = Some i ↔ l !! i = Some x) as Hm.
  { intros x i. by apply index_map_lookup. }
  assert (size m = length l) as Hsize by by apply index_map_size.
  split_and!.
  - intros label. rewrite <-elem_of_elements, <-Hperm, list_elem_of_lookup.
    unfold is_Some. by setoid_rewrite Hm.
  - intros a b i j Ha%Hm Hb%Hm. split.
    + intros Hij. destruct (decide (i = j)) as [->|Hne].
      * by simplify_eq.
      * eapply StronglySorted_lookup; [done..|lia].
    + intros Hab. destruct (decide (i ≤ j)%nat) as [|Hgt]; [done|].
      assert (R b a) as Hba.
      { eapply StronglySorted_lookup; [done..|lia]. }
      assert (a = b) as -> by by apply (anti_symm R).
      pose proof (NoDup_lookup _ _ _ _ Hnd Ha Hb). lia.
  - intros idx. rewrite Hsize. setoid_rewrite Hm. split.
    + intros Hlt. by apply lookup_lt_is_Some_2.
    + intros [label Hl]. by eapply lookup_lt_Some.
  - rewrite Hsize, Hperm. done.
Qed.

End SortedIndex.

Lemma node_label_set_spec graphs label :
  label ∈ Convert.node_label_set graphs
  ↔ ∃ g, g ∈ graphs ∧ label ∈ Convert.graph_nodes g.
Proof.
  unfold Convert.node_label_set.
  assert (∀ (nodes : list string) (acc : gset string),
    label ∈ foldl (λ labels label, {[label]} ∪ labels) acc nodes
    ↔ label ∈ acc ∨ label ∈ nodes) as Hnodes.
  { induction nodes as [|x nodes IH]; intros acc; simpl; [set_solver|].
    rewrite IH. set_solver. }
  assert (∀ acc : gset string,
    label ∈ foldl (λ labels g, foldl (λ labels label, {[label]} ∪ labels) labels
                                 (Convert.graph_nodes g)) acc graphs
    ↔ label ∈ acc ∨ ∃ g, g ∈ graphs ∧ label ∈ Convert.graph_nodes g) as Hgraphs.
  { induction graphs as [|g graphs IH]; intros acc; simpl; [set_solver|].
    rewrite IH, Hnodes. set_solver. }
  rewrite Hgraphs. set_solver.
Qed.

Lemma edge_label_set_spec graphs label :
  label ∈ Convert.edge_label_set graphs
  ↔ ∃ g src dst, g ∈ graphs ∧ (src, dst, label) ∈ Convert.graph_edges g.
Proof.
  unfold Convert.edge_label_set.
  assert (∀ (edges : list (Z * Z * Z)) (acc : gset Z),
    label ∈ foldl (λ labels '(_, _, edge_label), {[edge_label]} ∪ labels) acc edges
    ↔ label ∈ acc ∨ ∃ src dst, (src, dst, label) ∈ edges) as Hedges.
  { induction edges as [|[[s d] x] edges IH]; intros acc; simpl; [set_solver|].
    rewrite IH. setoid_rewrite elem_of_cons. set_solver. }
  assert (∀ acc : gset Z,
    label ∈ foldl (λ labels g,
                    foldl (λ labels '(_, _, edge_label), {[edge_label]} ∪ labels)
                      labels (Convert.graph_edges g)) acc graphs
    ↔ label ∈ acc ∨ ∃ g src dst, g ∈ graphs ∧ (src, dst, label) ∈ Convert.graph_edges g)
    as Hgraphs.
  { induction graphs as [|g graphs IH]; intros acc; simpl; [set_solver|].
    rewrite IH, Hedges. setoid_rewrite elem_of_cons. naive_solver. }
  rewrite Hgraphs. set_solver.
Qed.

(** X9. [create_label_mapping] numbers the labels in their sorted order:
    the node map is defined on exactly the node labels of the graphs, it
    gives the smaller label (in the order of the strings) the smaller
    number, and its numbers are exactly those below the number of distinct
    labels; the same holds of the edge map with the order of the
    integers. *)
Theorem label_mapping_spec graphs :
  let node_label_map := (Convert.create_label_mapping graphs).1 in
  let edge_label_map := (Convert.create_label_mapping graphs).2 in
  ((∀ label, is_Some (node_label_map !! label)
      ↔ ∃ g, g ∈ graphs ∧ label ∈ Convert.graph_nodes g)
   ∧ (∀ a b i j, node_label_map !! a = Some i → node_label_map !! b = Some j →
        (i ≤ j)%nat ↔ String.le a b)
   ∧ (∀ idx, (idx < size node_label_map)%nat ↔ ∃ label, node_label_map !! label = Some idx))
  ∧ ((∀ label, is_Some (edge_label_map !! label)
      ↔ ∃ g src dst, g ∈ graphs ∧ (src, dst, label) ∈ Convert.graph_edges g)
   ∧ (∀ a b i j, edge_label_map !! a = Some i → edge_label_map !! b = Some j →
        (i ≤ j)%nat ↔ a ≤ b)
   ∧ (∀ idx, (idx < size edge_label_map)%nat ↔ ∃ label, edge_label_map !! label = Some idx)).
Proof.
  simpl. unfold Convert.sorted_strings, Convert.sorted_ints. split.
  - destruct (sorted_index_map String.le (Convert.node_label_set graphs))
      as (Hdom & Hord & Hran & _).
    split_and!; [|done..]. intros label. by rewrite Hdom, node_label_set_spec.
  - destruct (sorted_index_map Z.le (Convert.edge_label_set graphs))
      as (Hdom & Hord & Hran & _).
    split_and!; [|done..]. intros label. by rewrite Hdom, edge_label_set_spec.
Qed.

(** * The lines of a text *)

Lemma append_cons c (s t : string) : String c s +:+ t = String c (s +:+ t).
Proof. done. Qed.

Lemma append_empty_l (s : string) : "" +:+ s = s.
Proof. done. Qed.

Lemma lines_text_app ls1 ls2 :
  lines_text (ls1 ++ ls2) = lines_text ls1 +:+ lines_text ls2.
Proof.
  induction ls1 as [|l ls1 IH]; [done|].
  simpl. unfold lines_text in *. simpl. by rewrite IH, append_assoc.
Qed.

Lemma lines_text_bind {X} (f : X → list string) (l : list X) :
  lines_text (l ≫= f) = lines_text ((λ x, lines_text (f x)) <$> l).
Proof.
  induction l as [|x l IH]; [done|].
  rewrite bind_cons, lines_text_app, IH. done.
Qed.

Lemma no_break_LF c : no_break c = true → Ascii.eqb c Lines.LF = false.
Proof. unfold no_break. by destruct (Ascii.eqb c Lines.CR), (Ascii.eqb c Lines.LF). Qed.

Lemma no_break_CR c : no_break c = true → Ascii.eqb c Lines.CR = false.
Proof. unfold no_break. by destruct (Ascii.eqb c Lines.CR), (Ascii.eqb c Lines.LF). Qed.

Lemma universal_newlines_id s :
  all_chars (λ c, negb (Ascii.eqb c Lines.CR)) s = true →
  Lines.universal_newlines s = s.
Proof.
  induction s as [|c s IH]; [done|]. simpl.
  intros [Hc Hs]%andb_true_iff. destruct (Ascii.eqb c Lines.CR); [done|].
  by rewrite IH.
Qed.

Lemma lines_go_line body cur rest :
  all_chars no_break body = true →
  Lines.lines_go cur (body +:+ String Lines.LF rest)
  = String.rev_app cur (body +:+ newline) :: Lines.lines_go "" rest.
Proof.
  revert cur. induction body as [|c body IH]; intros cur Hbody.
  - by rewrite !append_empty_l.
  - simpl in Hbody. apply andb_true_iff in Hbody as [Hc Hbody].
    rewrite !append_cons. simpl. rewrite (no_break_LF _ Hc). by rewrite IH.
Qed.

Lemma readlines_lines_text bodies :
  Forall (λ b, all_chars no_break b = true) bodies →
  Lines.readlines (lines_text ((λ b, b +:+ newline) <$> bodies))
  = (λ b, b +:+ newline) <$> bodies.
Proof.
  intros Hb. unfold Lines.readlines. rewrite universal_newlines_id.
  - induction Hb as [|b bodies Hb _ IH]; [done|].
    rewrite fmap_cons. change (lines_text (?l :: ?ls)) with (l +:+ lines_text ls).
    rewrite append_assoc. unfold newline at 1. rewrite append_cons, append_empty_l.
    rewrite lines_go_line by done. by rewrite IH.
  - induction Hb as [|b bodies Hb _ IH]; [done|].
    rewrite fmap_cons. change (lines_text (?l :: ?ls)) with (l +:+ lines_text ls).
    rewrite !all_chars_app, IH. simpl.
    rewrite (all_chars_impl no_break); [done| |done].
    intros c Hc. by rewrite (no_break_CR _ Hc).
Qed.

(** * The digits of a number *)

Lemma pretty_N_go_chars (P : ascii → bool) x s :
  (∀ d, P (pretty_N_char d) = true) → all_chars P s = true →
  all_chars P (pretty_N_go x s) = true.
Proof.
  intros HP. revert s. induction (N.lt_wf_0 x) as [x _ IH]; intros s Hs.
  assert (x = 0 ∨ 0 < x)%N as [->|?] by lia.
  - by rewrite pretty_N_go_0.
  - rewrite pretty_N_go_step by done. apply IH.
    + by apply N.div_lt.
    + simpl. by rewrite HP, Hs.
Qed.

Lemma pretty_N_chars (P : ascii → bool) (x : N) :
  (∀ d, P (pretty_N_char d) = true) → all_chars P (pretty x) = true.
Proof.
  intros HP. unfold pretty, pretty_N. case_decide.
  - change (P (pretty_N_char 0) && true = true). by rewrite HP.
  - by apply pretty_N_go_chars.
Qed.

Lemma pretty_nat_chars (P : ascii → bool) (x : nat) :
  (∀ d, P (pretty_N_char d) = true) → all_chars P (pretty x) = true.
Proof. apply pretty_N_chars. Qed.

Lemma pretty_Z_chars (P : ascii → bool) (x : Z) :
  (∀ d, P (pretty_N_char d) = true) → P "-"%char = true →
  all_chars P (pretty x) = true.
Proof.
  intros HP Hminus. destruct x as [|p|p]; unfold pretty, pretty_Z.
  - change (P (pretty_N_char 0) && true = true). by rewrite HP.
  - by apply pretty_N_chars.
  - rewrite append_cons, append_empty_l. simpl. rewrite Hminus. by apply pretty_N_chars.
Qed.

Lemma no_break_digit d : no_break (pretty_N_char d) = true.
Proof. unfold pretty_N_char. by repeat case_match. Qed.

Lemma yeast_edge_no_break e : all_chars no_break (yeast_edge e) = true.
Proof.
  destruct e as [[src dst] edge_label]. unfold yeast_edge.
  rewrite !all_chars_app, !pretty_Z_chars by (done || apply no_break_digit). done.
Qed.

(** * What the converters write *)

Lemma write_each_KeyError {X} (l : list X) body label text :
  foldl (λ w x, Convert.then_write w (body x)) (Convert.KeyError label text) l
  = Convert.KeyError label text.
Proof. by induction l. Qed.

Lemma write_each_cons {X} (x : X) l body text :
  Convert.write_each (x :: l) body text
  = Convert.then_write (body x text) (Convert.write_each l body).
Proof.
  unfold Convert.write_each. simpl. destruct (body x text) as [t|label t]; [done|].
  by rewrite write_each_KeyError.
Qed.

Lemma write_each_Done {X} (l : list X) body (piece : X → string) text :
  Forall (λ x, ∀ t, body x t = Convert.Done (t +:+ piece x)) l →
  Convert.write_each l body text = Convert.Done (text +:+ lines_text (piece <$> l)).
Proof.
  intros Hl. revert text. induction Hl as [|x l Hx _ IH]; intros text.
  - unfold Convert.write_each. simpl. by rewrite append_empty_r.
  - rewrite write_each_cons, Hx. simpl. rewrite IH, append_assoc. done.
Qed.

Lemma write_each_inv {X} (l : list X) body text :
  match Convert.write_each l body text with
  | Convert.Done _ => Forall (λ x, ∃ t t', body x t = Convert.Done t') l
  | Convert.KeyError label _ => ∃ x t t', x ∈ l ∧ body x t = Convert.KeyError label t'
  end.
Proof.
  revert text. induction l as [|x l IH]; intros text; [by constructor|].
  rewrite write_each_cons. destruct (body x text) as [t|label t] eqn:Hx; simpl.
  - specialize (IH t). destruct (Convert.write_each l body t).
    + constructor; eauto.
    + destruct IH as (y & ? & ? & ? & ?). exists y. set_solver.
  - exists x. set_solver.
Qed.

Lemma enumerate_elem_of {X} (l : list X) i x :
  (i, x) ∈ Convert.enumerate l ↔ l !! i = Some x.
Proof.
  rewrite list_elem_of_lookup. setoid_rewrite enumerate_lookup. naive_solver.
Qed.

Lemma enumerate_length {X} (l : list X) : length (Convert.enumerate l) = length l.
Proof. unfold Convert.enumerate. rewrite length_zip_with, length_seq. lia. Qed.

Lemma write_node_Done mo node t :
  (∀ m, mo = Some m → m ≠ ∅ → is_Some (m !! node.2)) →
  Convert.write_node mo node t
  = Convert.Done (t +:+ node_line (label_text mo) node +:+ newline).
Proof.
  destruct node as [i label]. unfold Convert.write_node, node_line, label_text. simpl.
  intros Hm. rewrite !append_assoc. destruct mo as [m|]; [|done].
  case_bool_decide; [done|]. destruct (Hm m) as [idx ->]; done.
Qed.

Lemma write_edge_Done tag e t :
  Convert.write_edge tag e t = Convert.Done (t +:+ edge_line tag e +:+ newline).
Proof.
  destruct e as [[src dst] edge_label].
  unfold Convert.write_edge, edge_line, yeast_edge. by rewrite !append_assoc.
Qed.

Lemma write_graph_Done tag mo g t :
  (∀ m label, mo = Some m → m ≠ ∅ → label ∈ Convert.graph_nodes g.2 →
     is_Some (m !! label)) →
  Convert.write_graph tag mo g t
  = Convert.Done (t +:+ lines_text ((λ b, b +:+ newline) <$> graph_block tag (label_text mo) g)).
Proof.
  destruct g as [idx g]. simpl. intros Hm. unfold Convert.write_graph, graph_block. simpl.
  rewrite (write_each_Done _ _ (λ node, node_line (label_text mo) node +:+ newline)).
  2:{ apply Forall_forall. intros [i label] Hin%enumerate_elem_of t'.
      apply write_node_Done. intros m ??. eapply Hm; [done..|].
      by eapply list_elem_of_lookup_2. }
  simpl.
  rewrite (write_each_Done _ _ (λ e, edge_line tag e +:+ newline)).
  2:{ apply Forall_forall. intros e _ t'. apply write_edge_Done. }
  f_equal. change (list_fmap string string ?f ?l) with (f <$> l).
  rewrite fmap_app, <-!list_fmap_compose, lines_text_app, !append_assoc. done.
Qed.

Lemma write_graphs_Done tag graphs mo :
  (∀ m, mo = Some m → m ≠ ∅ → covers m graphs) →
  Convert.write_graphs tag graphs mo
  = Convert.Done (lines_text ((λ b, b +:+ newline) <$> written_lines tag (label_text mo) graphs)).
Proof.
  intros Hm. unfold Convert.write_graphs, written_lines.
  rewrite (write_each_Done _ _
    (λ g, lines_text ((λ b, b +:+ newline) <$> graph_block tag (label_text mo) g))).
  - rewrite append_empty_l. f_equal.
    induction (Convert.enumerate graphs) as [|g gs IH]; [done|].
    rewrite fmap_cons, bind_cons, fmap_app, lines_text_app.
    change (lines_text (?l :: ?ls)) with (l +:+ lines_text ls). by rewrite IH.
  - apply Forall_forall. intros [idx g] Hin%enumerate_elem_of t.
    apply write_graph_Done. intros m label ???. eapply Hm; [done..| |done].
    by eapply list_elem_of_lookup_2.
Qed.

Lemma write_graphs_inv tag graphs m :
  m ≠ ∅ →
  match Convert.write_graphs tag graphs (Some m) with
  | Convert.Done _ => covers m graphs
  | Convert.KeyError label _ =>
      m !! label = None ∧ ∃ g, g ∈ graphs ∧ label ∈ Convert.graph_nodes g
  end.
Proof.
  intros Hne. unfold Convert.write_graphs.
  pose proof (write_each_inv (Convert.enumerate graphs)
                (Convert.write_graph tag (Some m)) "") as Hinv.
  assert (∀ idx g t,
    match Convert.write_graph tag (Some m) (idx, g) t with
    | Convert.Done _ => ∀ label, label ∈ Convert.graph_nodes g → is_Some (m !! label)
    | Convert.KeyError label _ => m !! label = None ∧ label ∈ Convert.graph_nodes g
    end) as Hgraph.
  { intros idx g t. unfold Convert.write_graph. simpl.
    pose proof (write_each_inv (Convert.enumerate (Convert.graph_nodes g))
                  (Convert.write_node (Some m)) (t +:+ "t # " +:+ pretty idx +:+ newline))
      as Hnodes.
    destruct (Convert.write_each (Convert.enumerate (Convert.graph_nodes g)) _ _)
      as [t1|label t1]; simpl.
    - assert (∀ label, label ∈ Convert.graph_nodes g → is_Some (m !! label)) as Hall.
      { intros label [i Hi]%list_elem_of_lookup.
        rewrite Forall_forall in Hnodes.
        destruct (Hnodes (i, label)) as (t0 & t' & Hw); [by apply enumerate_elem_of|].
        unfold Convert.write_node in Hw. rewrite bool_decide_eq_false_2 in Hw by done.
        by destruct (m !! label). }
      rewrite (write_each_Done _ _ (λ e, edge_line tag e +:+ newline)); [done|].
      apply Forall_forall. intros e _ t'. apply write_edge_Done.
    - destruct Hnodes as ([i label'] & t0 & t' & Hin%enumerate_elem_of & Hw).
      unfold Convert.write_node in Hw. rewrite bool_decide_eq_false_2 in Hw by done.
      destruct (m !! label') eqn:Hl; [done|]. simplify_eq.
      split; [done|]. by eapply list_elem_of_lookup_2. }
  destruct (Convert.write_each (Convert.enumerate graphs) _ "") as [t|label t].
  - intros g label [i Hi]%list_elem_of_lookup Hlabel.
    rewrite Forall_forall in Hinv.
    destruct (Hinv (i, g)) as (t0 & t' & Hw); [by apply enumerate_elem_of|].
    specialize (Hgraph i g t0). rewrite Hw in Hgraph. by apply Hgraph.
  - destruct Hinv as ([i g] & t0 & t' & Hin%enumerate_elem_of & Hw).
    specialize (Hgraph i g t0). rewrite Hw in Hgraph. destruct Hgraph as [? ?].
    split; [done|]. exists g. split; [|done]. by eapply list_elem_of_lookup_2.
Qed.

(** * Counting the graphs of a converted file *)

Lemma count_no_header (ls : list string) (count : Z) :
  Forall (λ l, Lines.startswith l "t #" = false) ls →
  foldl (λ count line, if Lines.startswith line "t #" then count + 1 else count) count ls
  = count.
Proof.
  intros Hls. revert count. induction Hls as [|l ls Hl _ IH]; intros count; [done|].
  simpl. by rewrite Hl, IH.
Qed.

Lemma count_written_lines tag label_of graphs (count : Z) :
  tag = "e" ∨ tag = "u" →
  foldl (λ count line, if Lines.startswith line "t #" then count + 1 else count) count
    ((λ b, b +:+ newline) <$> written_lines tag label_of graphs)
  = count + len graphs.
Proof.
  intros Htag. unfold written_lines, len. rewrite <-(enumerate_length graphs).
  revert count. induction (Convert.enumerate graphs) as [|g gs IH]; intros count.
  { simpl. lia. }
  rewrite bind_cons, fmap_app, foldl_app, IH. unfold graph_block.
  rewrite fmap_cons, fmap_app, <-!list_fmap_compose. simpl foldl at 1.
  rewrite foldl_app, !count_no_header.
  - simpl. lia.
  - apply Forall_fmap, Forall_forall. intros x _. simpl. unfold edge_line, node_line.
    by destruct Htag as [-> | ->].
  - apply Forall_fmap, Forall_forall. intros x _. simpl. unfold edge_line, node_line.
    by destruct Htag as [-> | ->].
Qed.

Lemma written_lines_no_break tag label_of graphs :
  tag = "e" ∨ tag = "u" →
  (∀ g label, g ∈ graphs → label ∈ Convert.graph_nodes g →
     all_chars no_break (label_of label) = true) →
  Forall (λ b, all_chars no_break b = true) (written_lines tag label_of graphs).
Proof.
  intros Htag Hlabels. unfold written_lines. apply Forall_bind, Forall_forall.
  intros [idx g] Hin%enumerate_elem_of%list_elem_of_lookup_2. simpl. unfold graph_block.
  simpl. constructor; [|apply Forall_app; split].
  - rewrite all_chars_app, pretty_nat_chars by apply no_break_digit. done.
  - apply Forall_fmap, Forall_forall.
    intros [i label] Hi%enumerate_elem_of%list_elem_of_lookup_2. simpl.
    unfold node_line. simpl.
    rewrite !all_chars_app, pretty_nat_chars, (Hlabels g) by (done || apply no_break_digit).
    done.
  - apply Forall_fmap, Forall_forall. intros e _. simpl. unfold edge_line.
    rewrite !all_chars_app, yeast_edge_no_break. by destruct Htag as [-> | ->].
Qed.

Lemma count_graphs_written tag mo graphs path fs :
  tag = "e" ∨ tag = "u" →
  (∀ g label, g ∈ graphs → label ∈ Convert.graph_nodes g →
     all_chars no_break (label_text mo label) = true) →
  Convert.count_graphs
    (<[path := lines_text ((λ b, b +:+ newline) <$> written_lines tag (label_text mo) graphs)]> fs)
    path
  = Convert.Opened (len graphs).
Proof.
  intros Htag Hlabels. unfold Convert.count_graphs. rewrite lookup_insert_eq.
  rewrite readlines_lines_text by by apply written_lines_no_break.
  by rewrite count_written_lines.
Qed.

Lemma own_mapping_covers graphs : covers (Convert.create_label_mapping graphs).1 graphs.
Proof.
  intros g label Hg Hlabel. simpl. unfold Convert.sorted_strings.
  apply (sorted_index_map String.le), node_label_set_spec. eauto.
Qed.

(** X10. Converting with the label map [create_label_mapping] makes from
    the same graphs never misses a key, in either format, and
    [count_graphs] finds in the file written as many graphs as were
    converted. *)
Theorem own_mapping_conversion graphs path fs :
  let node_label_map := Some (Convert.create_label_mapping graphs).1 in
  ∃ gspan fsg,
    Convert.convert_to_gspan_format graphs path node_label_map fs
      = (Convert.Done gspan, <[path := gspan]> fs)
    ∧ Convert.convert_to_fsg_format graphs path node_label_map fs
      = (Convert.Done fsg, <[path := fsg]> fs)
    ∧ Convert.count_graphs (<[path := gspan]> fs) path = Convert.Opened (len graphs)
    ∧ Convert.count_graphs (<[path := fsg]> fs) path = Convert.Opened (len graphs).
Proof.
  intros mo. unfold Convert.convert_to_gspan_format, Convert.convert_to_fsg_format.
  assert (∀ m, mo = Some m → m ≠ ∅ → covers m graphs) as Hcov.
  { intros m [= <-] _. apply own_mapping_covers. }
  rewrite !write_graphs_Done by done. simpl. do 2 eexists. split_and!; [done..| |].
  all: apply count_graphs_written; [auto|].
  all: intros g label Hg Hlabel; unfold mo, label_text; case_bool_decide as Hempty.
  all: try (apply pretty_nat_chars, no_break_digit).
  all: destruct (own_mapping_covers graphs g label Hg Hlabel) as [idx Hidx].
  all: rewrite Hempty, lookup_empty in Hidx; done.
Qed.

(** X11. With a label map that is not empty, a conversion succeeds
    exactly when the map has every node label of the graphs: when it
    returns, the map has them all, and otherwise it stops with the
    [KeyError] of a node label of the graphs that the map lacks; this
    holds of both formats. *)
Theorem conversion_needs_every_label graphs path m fs :
  m ≠ ∅ →
  match (Convert.convert_to_gspan_format graphs path (Some m) fs).1 with
  | Convert.Done _ => covers m graphs
  | Convert.KeyError label _ =>
      m !! label = None ∧ ∃ g, g ∈ graphs ∧ label ∈ Convert.graph_nodes g
  end
  ∧ match (Convert.convert_to_fsg_format graphs path (Some m) fs).1 with
    | Convert.Done _ => covers m graphs
    | Convert.KeyError label _ =>
        m !! label = None ∧ ∃ g, g ∈ graphs ∧ label ∈ Convert.graph_nodes g
    end.
Proof.
  intros Hne. unfold Convert.convert_to_gspan_format, Convert.convert_to_fsg_format.
  simpl. split; by apply write_graphs_inv.
Qed.


(** * Stripping a line *)

Lemma rev_app_append (x y acc : string) :
  String.rev_app (x +:+ y) acc = String.rev_app y (String.rev_app x acc).
Proof.
  revert acc. induction x as [|c x IH]; intros acc; [done|].
  rewrite append_cons. simpl. by rewrite IH.
Qed.

Lemma lstrip_spaces_app w s :
  all_chars Text.isspace w = true → Text.lstrip (w +:+ s) = Text.lstrip s.
Proof.
  induction w as [|c w IH]; [done|]. intros Hw. simpl in Hw.
  apply andb_true_iff in Hw as [Hc Hw].
  rewrite append_cons. simpl. rewrite Hc. by apply IH.
Qed.

Lemma lstrip_empty s : Text.lstrip s = "" → all_chars Text.isspace s = true.
Proof.
  induction s as [|c s IH]; [done|]. simpl. destruct (Text.isspace c); [done|done].
Qed.

Lemma lstrip_nonempty_app s t :
  Text.lstrip s ≠ "" → Text.lstrip (s +:+ t) = Text.lstrip s +:+ t.
Proof.
  induction s as [|c s IH]; [done|]. rewrite append_cons. simpl.
  destruct (Text.isspace c); [apply IH|done].
Qed.

Lemma lstrip_word_app a r :
  a ≠ "" → all_chars (λ c, negb (Text.isspace c)) a = true →
  Text.lstrip (a +:+ r) = a +:+ r.
Proof.
  destruct a as [|c a]; [done|]. intros _ [Hc _]%andb_true_iff.
  rewrite append_cons. simpl. apply negb_true_iff in Hc. by rewrite Hc.
Qed.

Lemma strip_newline s : Text.strip (s +:+ newline) = Text.strip s.
Proof.
  unfold Text.strip. destruct (decide (Text.lstrip s = "")) as [Hs|Hs].
  - rewrite lstrip_spaces_app by by apply lstrip_empty. by rewrite Hs.
  - rewrite lstrip_nonempty_app by done. unfold String.rev.
    rewrite rev_app_append. simpl. done.
Qed.

Lemma rev_app_acc s acc : String.rev_app s acc = String.rev s +:+ acc.
Proof.
  revert acc. induction s as [|c s IH]; intros acc; [done|].
  unfold String.rev. simpl. rewrite (IH (String c acc)), (IH (String c "")).
  by rewrite append_assoc.
Qed.

Lemma rev_append x y : String.rev (x +:+ y) = String.rev y +:+ String.rev x.
Proof. unfold String.rev at 1. by rewrite rev_app_append, rev_app_acc. Qed.

Lemma lstrip_word a :
  all_chars (λ c, negb (Text.isspace c)) a = true → Text.lstrip a = a.
Proof.
  destruct a as [|x a]; [done|]. intros [Hx _]%andb_true_iff.
  apply negb_true_iff in Hx. simpl. by rewrite Hx.
Qed.

Lemma rev_chars P s : all_chars P (String.rev s) = all_chars P s.
Proof. unfold String.rev. rewrite all_chars_rev_app. simpl. by rewrite andb_true_r. Qed.

Lemma rev_nonempty s : s ≠ "" → String.rev s ≠ "".
Proof. destruct s as [|c s]; [done|]. intros _. unfold String.rev. simpl. by apply rev_app_nonempty. Qed.

Lemma strip_ends a m c :
  a ≠ "" → all_chars (λ c, negb (Text.isspace c)) a = true →
  c ≠ "" → all_chars (λ c, negb (Text.isspace c)) c = true →
  Text.strip (a +:+ m +:+ c) = a +:+ m +:+ c.
Proof.
  intros Ha Ha' Hc Hc'. unfold Text.strip. rewrite lstrip_word_app by done.
  assert (Text.lstrip (String.rev (a +:+ m +:+ c)) = String.rev (a +:+ m +:+ c)) as ->.
  { rewrite <-append_assoc, rev_append. apply lstrip_word_app.
    - by apply rev_nonempty.
    - by rewrite rev_chars. }
  apply rev_rev.
Qed.

Lemma strip_word a :
  all_chars (λ c, negb (Text.isspace c)) a = true → Text.strip a = a.
Proof.
  intros Ha. unfold Text.strip. rewrite (lstrip_word a) by done.
  rewrite lstrip_word by by rewrite rev_chars. apply rev_rev.
Qed.

(** * Reading back a number *)

Lemma digit_pretty d : (d < 10)%N → Text.digit (pretty_N_char d) = Some (Z.of_N d).
Proof.
  intros Hd.
  assert (d = 0 ∨ d = 1 ∨ d = 2 ∨ d = 3 ∨ d = 4 ∨ d = 5 ∨ d = 6 ∨ d = 7 ∨ d = 8 ∨ d = 9)%N
    as Hcases by lia.
  by repeat destruct Hcases as [->|Hcases]; [..|subst d].
Qed.

Lemma digits_go_pretty (x : N) :
  ∃ k : nat, ∀ acc prev s,
    Text.digits_go acc prev (pretty_N_go x s)
    = Text.digits_go (acc * 10 ^ Z.of_nat k + Z.of_N x) (prev || (0 <? x)%N) s.
Proof.
  induction (N.lt_wf_0 x) as [x _ IH].
  assert (x = 0 ∨ 0 < x)%N as [->|Hx] by lia.
  - exists 0%nat. intros acc prev s. rewrite pretty_N_go_0. simpl.
    rewrite orb_false_r. f_equal. lia.
  - destruct (IH (x `div` 10)%N) as [k Hk]; [by apply N.div_lt|].
    exists (S k). intros acc prev s. rewrite pretty_N_go_step, Hk by done.
    simpl Text.digits_go at 1. rewrite digit_pretty by by apply N.mod_lt.
    apply N.ltb_lt in Hx as ->. rewrite orb_true_r. f_equal.
    rewrite Nat2Z.inj_succ, Z.pow_succ_r by lia.
    rewrite (N.div_mod x 10) at 3 by done.
    rewrite N2Z.inj_add, N2Z.inj_mul. change (Z.of_N 10) with 10. lia.
Qed.

Lemma no_space_digit d : negb (Text.isspace (pretty_N_char d)) = true.
Proof. unfold pretty_N_char. by repeat case_match. Qed.

Lemma py_int_unsigned s :
  match s with String c _ => c ≠ "+"%char ∧ c ≠ "-"%char | EmptyString => True end →
  Text.strip s = s → Text.py_int s = Text.digits_go 0 false s.
Proof.
  intros Hc Hs. unfold Text.py_int. rewrite Hs. destruct s as [|c s]; [done|].
  destruct c as [[] [] [] [] [] [] [] []]; try done; naive_solver.
Qed.

Lemma pretty_N_go_head x s :
  match s with String c _ => c ≠ "+"%char ∧ c ≠ "-"%char | EmptyString => True end →
  match pretty_N_go x s with
  | String c _ => c ≠ "+"%char ∧ c ≠ "-"%char
  | EmptyString => True
  end.
Proof.
  revert s. induction (N.lt_wf_0 x) as [x _ IH]; intros s Hs.
  assert (x = 0 ∨ 0 < x)%N as [->|?] by lia.
  - by rewrite pretty_N_go_0.
  - rewrite pretty_N_go_step by done. apply IH; [by apply N.div_lt|].
    unfold pretty_N_char. by repeat case_match.
Qed.

Lemma pretty_N_go_nonempty x s : s ≠ "" → pretty_N_go x s ≠ "".
Proof.
  revert s. induction (N.lt_wf_0 x) as [x _ IH]; intros s Hs.
  assert (x = 0 ∨ 0 < x)%N as [->|?] by lia.
  - by rewrite pretty_N_go_0.
  - rewrite pretty_N_go_step by done. apply IH; [by apply N.div_lt|done].
Qed.

Lemma pretty_N_nonempty (x : N) : pretty x ≠ "".
Proof.
  unfold pretty, pretty_N. case_decide; [done|].
  rewrite pretty_N_go_step by lia. by apply pretty_N_go_nonempty.
Qed.

Lemma py_int_pretty_N (x : N) : Text.py_int (pretty x) = Some (Z.of_N x).
Proof.
  rewrite py_int_unsigned.
  - unfold pretty, pretty_N. case_decide as Hx; [by subst|].
    destruct (digits_go_pretty x) as [k Hk]. rewrite Hk.
    assert ((0 <? x)%N = true) as -> by (apply N.ltb_lt; lia). simpl. f_equal; lia.
  - unfold pretty, pretty_N. case_decide; [done|]. by apply pretty_N_go_head.
  - apply strip_word, pretty_N_chars, no_space_digit.
Qed.

Lemma py_int_pretty_nat (x : nat) : Text.py_int (pretty x) = Some (Z.of_nat x).
Proof. unfold pretty, pretty_nat. rewrite py_int_pretty_N. f_equal. lia. Qed.

Lemma py_int_pretty_Z (x : Z) : Text.py_int (pretty x) = Some x.
Proof.
  destruct x as [|p|p]; [done| |].
  - unfold pretty, pretty_Z, pretty, pretty_positive. by rewrite py_int_pretty_N.
  - unfold pretty at 1, pretty_Z. unfold Text.py_int.
    rewrite strip_word.
    + rewrite append_cons, append_empty_l.
      pose proof (py_int_pretty_N (Npos p)) as Hp.
      rewrite py_int_unsigned in Hp.
      * unfold pretty at 1, pretty_positive. by rewrite Hp.
      * unfold pretty, pretty_N. case_decide; [done|]. by apply pretty_N_go_head.
      * apply strip_word, pretty_N_chars, no_space_digit.
    + rewrite all_chars_app. unfold pretty at 1, pretty_positive.
      by rewrite pretty_N_chars by apply no_space_digit.
Qed.

Lemma pretty_Z_nonempty (x : Z) : pretty x ≠ "".
Proof.
  destruct x as [|p|p]; [done| |].
  - apply pretty_N_nonempty.
  - unfold pretty, pretty_Z. by rewrite append_cons.
Qed.

Lemma pretty_Z_no_space (x : Z) :
  all_chars (λ c, negb (Text.isspace c)) (pretty x) = true.
Proof. apply pretty_Z_chars; [apply no_space_digit|done]. Qed.

Lemma split_yeast_edge src dst edge_label :
  Text.split (Text.strip (yeast_edge (src, dst, edge_label) +:+ newline))
  = [pretty src; pretty dst; pretty edge_label].
Proof.
  rewrite strip_newline. unfold yeast_edge.
  assert (pretty src +:+ " " +:+ pretty dst +:+ " " +:+ pretty edge_label
          = pretty src +:+ (" " +:+ pretty dst +:+ " ") +:+ pretty edge_label) as Heq.
  { by rewrite !append_assoc. }
  rewrite Heq, strip_ends, <-Heq by auto using pretty_Z_nonempty, pretty_Z_no_space.
  rewrite split_word by first [apply pretty_Z_nonempty|apply pretty_Z_no_space|done].
  rewrite append_cons, append_empty_l, split_space by done.
  rewrite split_word by first [apply pretty_Z_nonempty|apply pretty_Z_no_space|done].
  rewrite append_cons, append_empty_l, split_space by done.
  rewrite <-(append_empty_r (pretty edge_label)).
  rewrite split_word by first [apply pretty_Z_nonempty|apply pretty_Z_no_space|done].
  by rewrite append_empty_r.
Qed.

(** * Computations that come to an end *)

Section Ends.
Context {rng : Type}.

Lemma while_false {St} fuel cond (body : St → M rng St) st s :
  cond st = false → while fuel cond body st s = Ret (st, s).
Proof. intros Hc. destruct fuel; simpl; by rewrite Hc. Qed.

(** Once a loop has fuel enough not to run out, more fuel changes
    nothing. *)
Lemma while_more_fuel {St} cond (body body' : St → M rng St) fuel fuel' :
  (fuel ≤ fuel')%nat → (∀ st s, body' st s = body st s) →
  ∀ st s, while fuel cond body st s ≠ OutOfFuel →
    while fuel' cond body' st s = while fuel cond body st s.
Proof.
  intros Hle Hbody. revert fuel' Hle.
  induction fuel as [|fuel IH]; intros fuel' Hle st s Hend.
  - destruct (cond st) eqn:Hc; [by rewrite while_O in Hend|].
    by rewrite !while_false.
  - destruct fuel' as [|fuel']; [lia|].
    destruct (cond st) eqn:Hc; [|by rewrite !while_false].
    rewrite !while_S in * by done. unfold bind in *. rewrite Hbody.
    destruct (body st s) as [[st1 s1]| |]; [|done..]. apply IH; [lia|done].
Qed.

End Ends.

Lemma ends_mono {A} (r : res (A * unit)) (Q Q' : A → Prop) :
  (∀ a, Q a → Q' a) → ends r Q → ends r Q'.
Proof. intros HQ. destruct r as [[a s]| |]; simpl; auto. Qed.

Lemma ends_bind {A B} (m : M unit A) (k : A → M unit B) (Q : B → Prop) s :
  ends (m s) (λ a, ends (k a tt) Q) → ends (bind m k s) Q.
Proof. unfold bind. destruct (m s) as [[a []]| |]; simpl; auto. Qed.

Lemma ends_repeat_loop {St} (I : St → Prop) (body : St → M unit St) k :
  (∀ st, I st → ends (body st tt) I) →
  ∀ st, I st → ends (repeat_loop k body st tt) I.
Proof.
  intros Hbody. induction k as [|k IH]; intros st HI; simpl; [done|].
  apply ends_bind. eapply ends_mono; [|by apply Hbody]. apply IH.
Qed.

Lemma ends_while {St} (I : St → Prop) (μ : St → nat) cond (body : St → M unit St) :
  (∀ st, I st → cond st = true →
     (0 < μ st)%nat ∧ ends (body st tt) (λ st', I st' ∧ (μ st' < μ st)%nat)) →
  ∀ fuel st, I st → (μ st ≤ fuel)%nat →
    ends (while fuel cond body st tt) (λ st', I st' ∧ cond st' = false).
Proof.
  intros Hbody. induction fuel as [|fuel IH]; intros st HI Hfuel.
  - destruct (cond st) eqn:Hc; [|by rewrite while_false].
    destruct (Hbody st HI Hc) as [? _]. lia.
  - destruct (cond st) eqn:Hc; [|by rewrite while_false].
    rewrite while_S by done. apply ends_bind.
    destruct (Hbody st HI Hc) as [_ Hb]. eapply ends_mono; [|done].
    intros st' [HI' Hlt]. apply IH; [done|lia].
Qed.

(** * The parser *)

Lemma line_at_Some {A} (lines : list A) i l :
  lines !! i = Some l →
  match lines !! i with Some l => ret l | None => raise IndexError end tt
  = Ret (l, tt) :> res (A * unit).
Proof. by intros ->. Qed.

Lemma ends_skip_blank fuel lines i :
  (length lines ≤ fuel + i)%nat →
  ends (Convert.skip_blank fuel lines i tt)
    (λ j, (i ≤ j)%nat ∧ ∀ l, lines !! j = Some l → Text.strip l ≠ "").
Proof.
  intros Hfuel. unfold Convert.skip_blank.
  eapply ends_mono; [|apply (ends_while (λ j, (i ≤ j)%nat) (λ j, length lines - j)%nat)].
  - intros j [Hj Hc]. split; [done|]. intros l Hl. rewrite Hl in Hc.
    by apply bool_decide_eq_false in Hc.
  - intros j Hj Hc. destruct (lines !! j) as [l|] eqn:Hl; [|done].
    apply lookup_lt_Some in Hl. split; [lia|]. simpl. lia.
  - done.
  - lia.
Qed.

Lemma ends_read_nodes lines num_nodes i :
  ends (Convert.read_nodes lines num_nodes i tt) (λ '(_, j), (i ≤ j)%nat).
Proof.
  unfold Convert.read_nodes. apply ends_repeat_loop; [|done].
  intros [nodes j] Hj. apply ends_bind. unfold Convert.line_at.
  destruct (lines !! j); simpl; [lia|done].
Qed.

Lemma ends_read_edges lines num_edges i :
  ends (Convert.read_edges lines num_edges i tt) (λ '(_, j), (i ≤ j)%nat).
Proof.
  unfold Convert.read_edges. apply ends_repeat_loop; [|done].
  intros [edges j] Hj. unfold bind, Convert.line_at, Convert.to_int.
  destruct (lines !! j); simpl; [|done].
  repeat (match goal with
          | |- context [match ?l !! ?k with _ => _ end] => destruct (l !! k)
          | |- context [match Text.py_int ?x with _ => _ end] => destruct (Text.py_int x)
          end; simpl; try done).
  lia.
Qed.

Lemma ends_parse_step fuel lines i graphs :
  (length lines ≤ fuel)%nat →
  ends (Convert.parse_step fuel lines (i, graphs) tt) (λ '(j, _), (i < j)%nat).
Proof.
  intros Hfuel. unfold Convert.parse_step. apply ends_bind.
  unfold Convert.line_at. destruct (lines !! i) as [l|] eqn:Hl; simpl; [|done].
  case_bool_decide; simpl; [lia|].
  destruct (Lines.startswith (Text.strip l) "#"); simpl; [|lia].
  apply ends_bind. eapply ends_mono; [|apply ends_skip_blank; lia].
  intros j [Hj _]. apply ends_bind. unfold Convert.read_num_nodes.
  destruct (lines !! j) as [l1|]; simpl; [|done].
  destruct (Text.py_int (Text.strip l1)) as [n|]; simpl; [|done].
  apply ends_bind. eapply ends_mono; [|apply ends_read_nodes].
  intros [nodes j1] Hj1. apply ends_bind.
  destruct (lines !! j1) as [l2|]; simpl; [|done].
  apply ends_bind. unfold Convert.to_int.
  destruct (Text.py_int (Text.strip l2)) as [m|]; simpl; [|done].
  apply ends_bind. eapply ends_mono; [|apply ends_read_edges].
  intros [edges j2] Hj2. simpl. lia.
Qed.

Lemma ends_parse_loop fuel f lines i graphs :
  (length lines ≤ f)%nat → (length lines ≤ fuel + i)%nat →
  ends (while fuel (λ '(i, _), (i <? length lines)%nat) (Convert.parse_step f lines)
          (i, graphs) tt)
    (λ _, True).
Proof.
  intros Hf Hfuel.
  eapply ends_mono; [|apply (ends_while (λ _, True) (λ st, length lines - st.1)%nat)].
  - done.
  - intros [j gs] _ Hc. apply Nat.ltb_lt in Hc. split; [simpl; lia|].
    eapply ends_mono; [|by apply ends_parse_step]. intros [j' gs'] ?. simpl. split; [done|lia].
  - done.
  - simpl. lia.
Qed.

Lemma skip_blank_fuel fuel lines i :
  (length lines ≤ fuel)%nat →
  Convert.skip_blank fuel lines i tt = Convert.skip_blank (length lines) lines i tt.
Proof.
  intros Hfuel. unfold Convert.skip_blank. apply while_more_fuel; [done|done|].
  pose proof (ends_skip_blank (length lines) lines i) as Hends.
  unfold Convert.skip_blank in Hends. intros Hout. rewrite Hout in Hends.
  apply Hends. lia.
Qed.

Lemma parse_step_fuel fuel lines st s :
  (length lines ≤ fuel)%nat →
  Convert.parse_step fuel lines st s = Convert.parse_step (length lines) lines st s.
Proof.
  intros Hfuel. destruct st as [i graphs], s. unfold Convert.parse_step, bind.
  destruct (Convert.line_at lines i tt) as [[l []]| |]; [|done..].
  case_bool_decide; [done|]. destruct (Lines.startswith (Text.strip l) "#"); [|done].
  by rewrite skip_blank_fuel.
Qed.

Lemma parse_lines_fuel fuel lines :
  (length lines ≤ fuel)%nat →
  Convert.parse_lines fuel lines tt = Convert.parse_lines (length lines) lines tt
  ∧ Convert.parse_lines fuel lines tt ≠ OutOfFuel.
Proof.
  intros Hfuel. unfold Convert.parse_lines, bind.
  pose proof (ends_parse_loop (length lines) (length lines) lines 0 []) as Hends.
  rewrite (while_more_fuel _ (Convert.parse_step (length lines) lines) _ (length lines) fuel).
  - split; [done|]. destruct (while _ _ _ _ _) as [[[j gs] []]| |]; [done..|].
    simpl in Hends. intros _. apply Hends; lia.
  - done.
  - intros st s. by apply parse_step_fuel.
  - intros Hout. rewrite Hout in Hends. simpl in Hends. apply Hends; lia.
Qed.

(** X13. The parser comes to an end on every file: with fuel for as many
    turns as the file has lines, it returns graphs or raises, and more
    fuel gives the same result. *)
Theorem parser_terminates fuel fs path text :
  fs !! path = Some text → (length (Lines.readlines text) ≤ fuel)%nat →
  Convert.parse_yeast_dataset fuel fs path ≠ Convert.Opened OutOfFuel
  ∧ Convert.parse_yeast_dataset fuel fs path
    = Convert.parse_yeast_dataset (length (Lines.readlines text)) fs path.
Proof.
  intros Htext Hfuel. unfold Convert.parse_yeast_dataset. rewrite Htext.
  destruct (parse_lines_fuel fuel (Lines.readlines text) Hfuel) as [-> Hend].
  split; [|done]. destruct (Convert.parse_lines _ _ tt) as [[gs []]| |]; done.
Qed.

(** * Parsing a file in the documented layout *)

Lemma strip_number_line (n : nat) : Text.strip (pretty n +:+ newline) = pretty n.
Proof.
  rewrite strip_newline. apply strip_word, pretty_nat_chars, no_space_digit.
Qed.

Lemma lines_cons_middle {A} (pre : list A) x rest : pre ++ x :: rest = (pre ++ [x]) ++ rest.
Proof. by rewrite <-app_assoc. Qed.

Lemma startswith_hash s : Lines.startswith (String "#" s) "#" = true.
Proof. by destruct s. Qed.

Lemma repeat_loop_S {rng St} k (body : St → M rng St) st s :
  repeat_loop (S k) body st s = bind (body st) (repeat_loop k body) s.
Proof. done. Qed.

Lemma read_nodes_block nodes : ∀ lines pre rest acc,
  lines = pre ++ ((λ b, b +:+ newline) <$> nodes) ++ rest →
  Forall clean_label nodes →
  repeat_loop (length nodes)
    (λ '(nodes, i),
      let* l := Convert.line_at lines i in
      let node_label := Text.strip l in
      ret (nodes ++ [node_label], S i))
    (acc, length pre) tt
  = Ret ((acc ++ nodes, (length pre + length nodes)%nat), tt).
Proof.
  induction nodes as [|x nodes IH]; intros lines pre rest acc Hlines Hclean.
  { simpl. by rewrite app_nil_r, Nat.add_0_r. }
  apply Forall_cons in Hclean as [[Hx _] Hclean].
  assert (lines !! length pre = Some (x +:+ newline)) as Hl.
  { rewrite Hlines, fmap_cons. by apply list_lookup_middle. }
  change (length (x :: nodes)) with (S (length nodes)). rewrite repeat_loop_S.
  erewrite bind_step.
  2:{ cbv beta iota zeta. unfold bind, Convert.line_at. rewrite Hl. unfold ret.
      by rewrite strip_newline, Hx. }
  replace (S (length pre)) with (length (pre ++ [x +:+ newline]))
    by (rewrite length_app; simpl; lia).
  rewrite (IH lines _ rest); [|by rewrite Hlines, <-app_assoc|done].
  rewrite <-app_assoc, length_app. simpl. do 3 f_equal. lia.
Qed.

Lemma read_edges_block edges : ∀ lines pre rest acc,
  lines = pre ++ ((λ b, b +:+ newline) <$> (yeast_edge <$> edges)) ++ rest →
  repeat_loop (length edges)
    (λ '(edges, i),
      let* l := Convert.line_at lines i in
      let edge_parts := Text.split (Text.strip l) in
      let* p0 := Convert.line_at edge_parts 0 in
      let* src := Convert.to_int p0 in
      let* p1 := Convert.line_at edge_parts 1 in
      let* dst := Convert.to_int p1 in
      let* p2 := Convert.line_at edge_parts 2 in
      let* edge_label := Convert.to_int p2 in
      ret (edges ++ [(src, dst, edge_label)], S i))
    (acc, length pre) tt
  = Ret ((acc ++ edges, (length pre + length edges)%nat), tt).
Proof.
  induction edges as [|[[src dst] edge_label] edges IH];
    intros lines pre rest acc Hlines.
  { simpl. by rewrite app_nil_r, Nat.add_0_r. }
  assert (lines !! length pre = Some (yeast_edge (src, dst, edge_label) +:+ newline)) as Hl.
  { rewrite Hlines, !fmap_cons. by apply list_lookup_middle. }
  change (length (?e :: edges)) with (S (length edges)). rewrite repeat_loop_S.
  erewrite bind_step.
  2:{ cbv beta iota zeta. unfold bind at 1. unfold Convert.line_at at 1. rewrite Hl.
      unfold ret at 1. cbv beta iota. rewrite split_yeast_edge. unfold bind, Convert.line_at, Convert.to_int, ret. simpl.
      by rewrite !py_int_pretty_Z. }
  replace (S (length pre))
    with (length (pre ++ [yeast_edge (src, dst, edge_label) +:+ newline]))
    by (rewrite length_app; simpl; lia).
  rewrite (IH lines _ rest) by by rewrite Hlines, <-app_assoc.
  rewrite <-app_assoc, length_app. simpl. do 3 f_equal. lia.
Qed.

Lemma parse_step_block fuel lines pre g rest graphs :
  lines = pre ++ ((λ b, b +:+ newline) <$> yeast_lines g) ++ rest →
  clean_graph g →
  Convert.parse_step fuel lines (length pre, graphs) tt
  = Ret (((length pre + length (yeast_lines g))%nat, graphs ++ [g]), tt).
Proof.
  destruct g as [id nodes edges]. unfold yeast_lines, clean_graph. simpl.
  intros Hlines [[Hid _] Hnodes].
  set (h := ("#" +:+ id) +:+ newline) in *.
  set (c := pretty (length nodes) +:+ newline) in *.
  set (m := pretty (length edges) +:+ newline) in *.
  set (N := (λ b, b +:+ newline) <$> nodes).
  set (E := (λ b, b +:+ newline) <$> (yeast_edge <$> edges)).
  assert (lines = pre ++ h :: c :: N ++ m :: E ++ rest) as Hl.
  { rewrite Hlines, !fmap_app. simpl. by rewrite <-!app_assoc. }
  clear Hlines.
  assert (Convert.line_at lines (length pre) tt = Ret (h, tt)) as H0.
  { unfold Convert.line_at. rewrite Hl. by rewrite list_lookup_middle. }
  assert (lines !! S (length pre) = Some c) as Hc.
  { rewrite Hl, lookup_app_r by lia.
    by replace (S (length pre) - length pre)%nat with 1%nat by lia. }
  assert (Convert.skip_blank fuel lines (S (length pre)) tt = Ret (S (length pre), tt)) as H1.
  { unfold Convert.skip_blank. apply while_false. rewrite Hc. unfold c.
    rewrite strip_number_line. apply bool_decide_eq_false_2, pretty_N_nonempty. }
  assert (Convert.read_num_nodes lines (S (length pre)) tt
          = Ret (Z.of_nat (length nodes), tt)) as H2.
  { unfold Convert.read_num_nodes. rewrite Hc. unfold c.
    by rewrite strip_number_line, py_int_pretty_nat. }
  assert (Convert.read_nodes lines (Z.of_nat (length nodes)) (S (S (length pre))) tt
          = Ret ((nodes, (S (S (length pre)) + length nodes)%nat), tt)) as H3.
  { unfold Convert.read_nodes. rewrite Nat2Z.id.
    replace (S (S (length pre))) with (length (pre ++ [h; c]))
      by (rewrite length_app; simpl; lia).
    apply (read_nodes_block nodes lines (pre ++ [h; c]) (m :: E ++ rest) []); [|done].
    by rewrite Hl, <-app_assoc. }
  assert (Convert.line_at lines (S (S (length pre)) + length nodes) tt = Ret (m, tt)) as H4.
  { unfold Convert.line_at. rewrite Hl, lookup_app_r by lia.
    replace (S (S (length pre)) + length nodes - length pre)%nat
      with (S (S (length nodes))) by lia.
    simpl. rewrite list_lookup_middle; [done|]. unfold N. by rewrite length_fmap. }
  assert (Convert.to_int (Text.strip m) tt = Ret (Z.of_nat (length edges), tt)) as H5.
  { unfold Convert.to_int, m. by rewrite strip_number_line, py_int_pretty_nat. }
  assert (Convert.read_edges lines (Z.of_nat (length edges))
            (S (S (S (length pre)) + length nodes)) tt
          = Ret ((edges, (S (S (S (length pre)) + length nodes) + length edges)%nat), tt))
    as H6.
  { unfold Convert.read_edges. rewrite Nat2Z.id.
    replace (S (S (S (length pre)) + length nodes))
      with (length (pre ++ h :: c :: N ++ [m])).
    2:{ rewrite length_app. simpl. rewrite length_app. unfold N. rewrite length_fmap.
        simpl. lia. }
    apply (read_edges_block edges lines (pre ++ h :: c :: N ++ [m]) rest []).
    rewrite Hl, <-!app_assoc. simpl. by rewrite <-!app_assoc. }
  unfold Convert.parse_step. rewrite (bind_step _ _ _ _ _ H0). cbv beta zeta.
  assert (Text.strip h = "#" +:+ id) as -> by (unfold h; by rewrite strip_newline).
  rewrite bool_decide_eq_false_2 by by rewrite append_cons.
  rewrite append_cons, append_empty_l, startswith_hash. simpl Lines.tail.
  cbv beta iota zeta.
  rewrite (bind_step _ _ _ _ _ H1), (bind_step _ _ _ _ _ H2), (bind_step _ _ _ _ _ H3).
  cbv beta iota zeta.
  rewrite (bind_step _ _ _ _ _ H4), (bind_step _ _ _ _ _ H5), (bind_step _ _ _ _ _ H6).
  cbv beta iota zeta. unfold ret. do 3 f_equal.
  rewrite length_app. simpl. rewrite length_fmap. lia.
Qed.

Lemma parse_loop_graphs graphs : ∀ fuel f lines pre acc,
  lines = pre ++ ((λ b, b +:+ newline) <$> (graphs ≫= yeast_lines)) →
  Forall clean_graph graphs → (length graphs ≤ fuel)%nat →
  while fuel (λ '(i, _), (i <? length lines)%nat) (Convert.parse_step f lines)
    (length pre, acc) tt
  = Ret ((length lines, acc ++ graphs), tt).
Proof.
  induction graphs as [|g graphs IH]; intros fuel f lines pre acc Hlines Hclean Hfuel.
  { rewrite while_false.
    - rewrite Hlines. simpl. by rewrite !app_nil_r.
    - apply Nat.ltb_ge. rewrite Hlines. simpl. rewrite app_nil_r. lia. }
  apply Forall_cons in Hclean as [Hg Hclean].
  destruct fuel as [|fuel]; [simpl in Hfuel; lia|].
  rewrite bind_cons, fmap_app in Hlines.
  rewrite while_S.
  2:{ apply Nat.ltb_lt. rewrite Hlines, !length_app, length_fmap.
      unfold yeast_lines. simpl. lia. }
  erewrite bind_step; [|by eapply parse_step_block].
  replace (length pre + length (yeast_lines g))%nat
    with (length (pre ++ ((λ b, b +:+ newline) <$> yeast_lines g)))
    by by rewrite length_app, length_fmap.
  rewrite (IH fuel f lines); [|by rewrite Hlines, <-app_assoc|done|simpl in Hfuel; lia].
  by rewrite <-app_assoc.
Qed.

Lemma yeast_text_lines graphs :
  Forall clean_graph graphs →
  Lines.readlines (yeast_text graphs)
  = (λ b, b +:+ newline) <$> (graphs ≫= yeast_lines).
Proof.
  intros Hclean. unfold yeast_text. apply readlines_lines_text.
  apply Forall_bind, Forall_forall. intros [id nodes edges] Hg.
  rewrite Forall_forall in Hclean. destruct (Hclean _ Hg) as [[_ Hid] Hnodes].
  simpl in *. unfold yeast_lines. simpl.
  constructor; [by rewrite all_chars_app, Hid|].
  constructor; [apply pretty_nat_chars, no_break_digit|].
  apply Forall_app. split; [|constructor].
  - eapply Forall_impl; [done|]. by intros label [_ ?].
  - apply pretty_nat_chars, no_break_digit.
  - apply Forall_fmap, Forall_forall. intros e _. apply yeast_edge_no_break.
Qed.

(** X14. A file laid out as the parser documents (for each graph the id
    after [#], the number of nodes, a label per line, the number of edges
    and an edge per line) is parsed into the graphs it lists, as long as
    the ids and labels can stand on a line: one turn of fuel per graph is
    enough. *)
Theorem yeast_round_trip fuel fs path graphs :
  Forall clean_graph graphs → fs !! path = Some (yeast_text graphs) →
  (length graphs ≤ fuel)%nat →
  Convert.parse_yeast_dataset fuel fs path = Convert.Opened (Ret graphs).
Proof.
  intros Hclean Htext Hfuel. unfold Convert.parse_yeast_dataset. rewrite Htext.
  rewrite yeast_text_lines by done. unfold Convert.parse_lines.
  erewrite bind_step; [|by apply (parse_loop_graphs graphs fuel fuel _ [] [])].
  done.
Qed.

(** * Files without graphs, and graphs without a node count *)

Lemma parse_step_skip fuel lines i graphs l :
  lines !! i = Some l → header_line l = false →
  Convert.parse_step fuel lines (i, graphs) tt = Ret ((S i, graphs), tt).
Proof.
  intros Hl Hh. unfold Convert.parse_step, bind, Convert.line_at. rewrite Hl.
  unfold ret at 1. case_bool_decide; [done|]. unfold header_line in Hh. by rewrite Hh.
Qed.

Lemma parse_step_Ret fuel lines i graphs j graphs' :
  Convert.parse_step fuel lines (i, graphs) tt = Ret ((j, graphs'), tt) →
  (∃ l, lines !! i = Some l ∧ header_line l = false ∧ j = S i ∧ graphs' = graphs)
  ∨ (∃ g, graphs' = graphs ++ [g]).
Proof.
  unfold Convert.parse_step. intros (l & [] & Hl & Hstep)%bind_Ret.
  unfold Convert.line_at in Hl. destruct (lines !! i) as [l'|] eqn:Hi; [|done].
  apply ret_Ret in Hl as [-> _]. unfold header_line.
  case_bool_decide as Hblank.
  { apply ret_Ret in Hstep as [[= <- <-] _]. left. exists l. by rewrite Hblank. }
  destruct (Lines.startswith (Text.strip l) "#") eqn:Hh.
  2:{ apply ret_Ret in Hstep as [[= <- <-] _]. left. by exists l. }
  right.
  apply bind_Ret in Hstep as (i1 & [] & _ & Hstep).
  apply bind_Ret in Hstep as (num_nodes & [] & _ & Hstep).
  apply bind_Ret in Hstep as ([nodes i2] & [] & _ & Hstep).
  apply bind_Ret in Hstep as (l2 & [] & _ & Hstep).
  apply bind_Ret in Hstep as (num_edges & [] & _ & Hstep).
  apply bind_Ret in Hstep as ([edges i3] & [] & _ & Hstep).
  apply ret_Ret in Hstep as [[= <- <-] _]. eauto.
Qed.

Lemma parse_loop_no_header f lines :
  Forall (λ l, header_line l = false) lines →
  ∀ fuel i graphs, (length lines ≤ fuel + i)%nat →
    ∃ j, while fuel (λ '(i, _), (i <? length lines)%nat) (Convert.parse_step f lines)
           (i, graphs) tt
         = Ret ((j, graphs), tt).
Proof.
  intros Hlines. induction fuel as [|fuel IH]; intros i graphs Hfuel.
  { exists i. apply while_false, Nat.ltb_ge. lia. }
  destruct (decide (i < length lines)%nat) as [Hlt|Hge].
  - rewrite while_S by by apply Nat.ltb_lt.
    destruct (lookup_lt_is_Some_2 lines i Hlt) as [l Hl].
    erewrite bind_step.
    2:{ eapply parse_step_skip; [done|].
        rewrite Forall_forall in Hlines. eapply Hlines, list_elem_of_lookup_2, Hl. }
    apply IH. lia.
  - exists i. apply while_false, Nat.ltb_ge. lia.
Qed.

Lemma parse_lines_nil fuel lines :
  Convert.parse_lines fuel lines tt = Ret ([], tt) →
  Forall (λ l, header_line l = false) lines.
Proof.
  unfold Convert.parse_lines. intros ([j graphs] & [] & Hloop & Hret)%bind_Ret.
  apply ret_Ret in Hret as [-> _].
  eapply (while_Ret (λ st, st.2 = [] → Forall (λ l, header_line l = false) (take st.1 lines)))
    in Hloop as [HI Hc].
  - simpl in *. apply Nat.ltb_ge in Hc. rewrite take_ge in HI by done. by apply HI.
  - intros [i gs] [] [i' gs'] [] HI Hc [(l & Hl & Hh & -> & ->)|[g ->]]%parse_step_Ret; simpl in *.
    + intros Hgs. rewrite (take_S_r _ _ l) by done. apply Forall_app. split; [by apply HI|].
      by constructor.
    + intros Hgs. by destruct gs.
  - simpl. intros _. by rewrite take_0.
Qed.

(** X15. The parser returns no graph exactly when no line of the file,
    stripped, starts with [#]; the empty file is one such file. *)
Theorem no_graphs_iff_no_header fuel fs path text :
  fs !! path = Some text → (length (Lines.readlines text) ≤ fuel)%nat →
  Convert.parse_yeast_dataset fuel fs path = Convert.Opened (Ret [])
  ↔ Forall (λ l, header_line l = false) (Lines.readlines text).
Proof.
  intros Htext Hfuel. unfold Convert.parse_yeast_dataset. rewrite Htext. split.
  - intros Hparse. apply (parse_lines_nil fuel).
    destruct (Convert.parse_lines _ _ tt) as [[gs []]| |]; by simplify_eq.
  - intros Hlines. unfold Convert.parse_lines.
    destruct (parse_loop_no_header fuel _ Hlines fuel 0%nat []) as [j Hj]; [lia|].
    by rewrite (bind_step _ _ _ _ _ Hj).
Qed.

Lemma parse_loop_prefix f lines pre : ∀ before rest fuel graphs,
  lines = before ++ pre ++ rest → Forall (λ l, header_line l = false) pre →
  while (length pre + fuel) (λ '(i, _), (i <? length lines)%nat) (Convert.parse_step f lines)
    (length before, graphs) tt
  = while fuel (λ '(i, _), (i <? length lines)%nat) (Convert.parse_step f lines)
      ((length before + length pre)%nat, graphs) tt.
Proof.
  induction pre as [|x pre IH]; intros before rest fuel graphs Hlines Hpre.
  { simpl. by rewrite Nat.add_0_r. }
  apply Forall_cons in Hpre as [Hx Hpre]. simpl length. simpl Nat.add.
  rewrite while_S.
  2:{ apply Nat.ltb_lt. rewrite Hlines, !length_app. simpl. lia. }
  erewrite bind_step.
  2:{ eapply parse_step_skip; [|done]. rewrite Hlines. by apply list_lookup_middle. }
  replace (S (length before)) with (length (before ++ [x]))
    by (rewrite length_app; simpl; lia).
  rewrite (IH (before ++ [x]) rest); [|by rewrite Hlines, <-app_assoc|done].
  rewrite length_app. simpl length.
  by replace (length before + 1 + length pre)%nat with (length before + S (length pre))%nat by lia.
Qed.

Lemma skip_blank_block lines blanks : ∀ before rest fuel,
  lines = before ++ blanks ++ rest → Forall (λ l, Text.strip l = "") blanks →
  match rest with [] => True | l :: _ => Text.strip l ≠ "" end →
  (length blanks ≤ fuel)%nat →
  Convert.skip_blank fuel lines (length before) tt
  = Ret ((length before + length blanks)%nat, tt).
Proof.
  unfold Convert.skip_blank.
  induction blanks as [|x blanks IH]; intros before rest fuel Hlines Hblanks Hrest Hfuel.
  { rewrite while_false; [by rewrite Nat.add_0_r|]. rewrite Hlines. simpl.
    destruct rest as [|l rest].
    - by rewrite app_nil_r, lookup_ge_None_2.
    - rewrite list_lookup_middle by done. by apply bool_decide_eq_false_2. }
  apply Forall_cons in Hblanks as [Hx Hblanks].
  destruct fuel as [|fuel]; [simpl in Hfuel; lia|].
  rewrite while_S.
  2:{ rewrite Hlines. simpl. rewrite list_lookup_middle by done.
      by apply bool_decide_eq_true_2. }
  erewrite bind_step; [|done].
  replace (S (length before)) with (length (before ++ [x]))
    by (rewrite length_app; simpl; lia).
  rewrite (IH (before ++ [x]) rest); [|by rewrite Hlines, <-app_assoc|done..|simpl in Hfuel; lia].
  do 2 f_equal. rewrite length_app. simpl. lia.
Qed.

(** X16. When the first graph id line of a file is followed, after any
    blank lines, by the end of the file or by a line that is not an
    integer, the parser raises [ValueError]. *)
Theorem missing_node_count fuel fs path text pre h blanks rest :
  fs !! path = Some text →
  Lines.readlines text = pre ++ [h] ++ blanks ++ rest →
  Forall (λ l, header_line l = false) pre → header_line h = true →
  Forall (λ l, Text.strip l = "") blanks →
  match rest with
  | [] => True
  | l :: _ => Text.strip l ≠ "" ∧ Text.py_int (Text.strip l) = None
  end →
  (length (Lines.readlines text) ≤ fuel)%nat →
  Convert.parse_yeast_dataset fuel fs path = Convert.Opened (Exc ValueError).
Proof.
  intros Htext Hlines Hpre Hh Hblanks Hrest Hfuel.
  unfold Convert.parse_yeast_dataset. rewrite Htext.
  set (lines := Lines.readlines text) in *.
  assert (Convert.parse_lines fuel lines tt = Exc ValueError) as ->; [|done].
  unfold Convert.parse_lines, bind.
  assert (length lines = length pre + S (length blanks + length rest))%nat as Hlen.
  { rewrite Hlines, !length_app. simpl. lia. }
  replace fuel with (length pre + S (fuel - S (length pre)))%nat at 1 by lia.
  rewrite (parse_loop_prefix fuel lines pre [] ([h] ++ blanks ++ rest)) by done.
  simpl length. simpl Nat.add. rewrite while_S by (apply Nat.ltb_lt; lia).
  assert (Convert.parse_step fuel lines (length pre, []) tt = Exc ValueError) as Hstep.
  { assert (lines !! length pre = Some h) as Hlh.
    { rewrite Hlines. by apply list_lookup_middle. }
    assert (Convert.skip_blank fuel lines (S (length pre)) tt
            = Ret ((S (length pre) + length blanks)%nat, tt)) as Hskip.
    { replace (S (length pre)) with (length (pre ++ [h]))
        by (rewrite length_app; simpl; lia).
      apply (skip_blank_block lines blanks (pre ++ [h]) rest).
      - by rewrite Hlines, <-app_assoc.
      - done.
      - destruct rest; [done|]. by destruct Hrest.
      - lia. }
    assert (Convert.read_num_nodes lines (S (length pre) + length blanks) tt
            = Exc ValueError) as Hcount.
    { unfold Convert.read_num_nodes.
      replace (S (length pre) + length blanks)%nat
        with (length (pre ++ [h] ++ blanks)) by (rewrite !length_app; simpl; lia).
      assert (lines = (pre ++ [h] ++ blanks) ++ rest) as -> by by rewrite Hlines, <-!app_assoc.
      destruct rest as [|l rest].
      - by rewrite app_nil_r, lookup_ge_None_2.
      - rewrite list_lookup_middle by done. by destruct Hrest as [_ ->]. }
    unfold Convert.parse_step, bind, Convert.line_at. rewrite Hlh. unfold ret at 1.
    unfold header_line in Hh. rewrite Hh.
    rewrite bool_decide_eq_false_2 by (intros Hs; by rewrite Hs in Hh).
    by rewrite Hskip, Hcount. }
  unfold bind. by rewrite Hstep.
Qed.

(** * Files that end too early *)

(** The node loop reads the next lines as they are, and fails when the
    file has too few. *)
Lemma read_nodes_spec lines k : ∀ acc i,
  (i ≤ length lines)%nat →
  repeat_loop k
    (λ '(nodes, i),
      let* l := Convert.line_at lines i in
      let node_label := Text.strip l in
      ret (nodes ++ [node_label], S i))
    (acc, i) tt
  = if decide (i + k ≤ length lines)%nat
    then Ret ((acc ++ (Text.strip <$> take k (drop i lines)), (i + k)%nat), tt)
    else Exc IndexError.
Proof.
  induction k as [|k IH]; intros acc i Hi.
  { rewrite decide_True by lia. simpl. by rewrite app_nil_r, Nat.add_0_r. }
  rewrite repeat_loop_S. destruct (lines !! i) as [l|] eqn:Hl.
  - apply lookup_lt_Some in Hl as Hlt. erewrite bind_step.
    2:{ cbv beta iota zeta. unfold bind, Convert.line_at. rewrite Hl. done. }
    rewrite IH by lia. rewrite (drop_S _ _ _ Hl). simpl.
    destruct (decide (i + S k ≤ length lines)%nat).
    + rewrite decide_True by lia. rewrite <-app_assoc. simpl.
      by replace (S (i + k)) with (i + S k)%nat by lia.
    + by rewrite decide_False by lia.
  - apply lookup_ge_None in Hl. rewrite decide_False by lia.
    unfold bind. cbv beta iota zeta. unfold bind, Convert.line_at.
    by rewrite (lookup_ge_None_2 _ _ Hl).
Qed.

(** X17. When a file ends before the node labels and the edge count that
    its first graph announces, the parser raises [IndexError]. *)
Theorem truncated_node_list fuel fs path text pre h c rest n :
  fs !! path = Some text →
  Lines.readlines text = pre ++ [h; c] ++ rest →
  Forall (λ l, header_line l = false) pre → header_line h = true →
  Text.py_int (Text.strip c) = Some n → len rest ≤ n →
  (length (Lines.readlines text) ≤ fuel)%nat →
  Convert.parse_yeast_dataset fuel fs path = Convert.Opened (Exc IndexError).
Proof.
  intros Htext Hlines Hpre Hh Hc Hn Hfuel.
  unfold Convert.parse_yeast_dataset. rewrite Htext.
  set (lines := Lines.readlines text) in *.
  assert (Convert.parse_lines fuel lines tt = Exc IndexError) as ->; [|done].
  unfold Convert.parse_lines, bind.
  assert (length lines = length pre + S (S (length rest)))%nat as Hlen.
  { rewrite Hlines, !length_app. simpl. lia. }
  replace fuel with (length pre + S (fuel - S (length pre)))%nat at 1 by lia.
  rewrite (parse_loop_prefix fuel lines pre [] ([h; c] ++ rest)) by done.
  simpl length. simpl Nat.add. rewrite while_S by (apply Nat.ltb_lt; lia).
  assert (Convert.parse_step fuel lines (length pre, []) tt = Exc IndexError) as Hstep.
  { assert (lines !! length pre = Some h) as Hlh.
    { rewrite Hlines. by apply list_lookup_middle. }
    assert (lines !! S (length pre) = Some c) as Hlc.
    { rewrite Hlines, lookup_app_r by lia.
      by replace (S (length pre) - length pre)%nat with 1%nat by lia. }
    assert (Text.strip c ≠ "") as Hne by (intros Hs; by rewrite Hs in Hc).
    assert (Convert.skip_blank fuel lines (S (length pre)) tt = Ret (S (length pre), tt))
      as Hskip.
    { unfold Convert.skip_blank. apply while_false. rewrite Hlc.
      by apply bool_decide_eq_false_2. }
    unfold Convert.parse_step, bind, Convert.line_at. rewrite Hlh. unfold ret at 1.
    unfold header_line in Hh. rewrite Hh.
    rewrite bool_decide_eq_false_2 by (intros Hs; by rewrite Hs in Hh).
    rewrite Hskip. unfold Convert.read_num_nodes. rewrite Hlc, Hc. unfold ret at 1.
    unfold Convert.read_nodes. rewrite read_nodes_spec by lia.
    unfold len in Hn. case_decide as Hroom; [|done].
    assert (S (S (length pre)) + Z.to_nat n = length lines)%nat as -> by lia.
    by rewrite lookup_ge_None_2. }
  unfold bind. by rewrite Hstep.
Qed.

(** * The further properties at sample inputs *)

Lemma dataset_transaction_lengths_witness :
  NoDup Demo.items ∧ Demo.items ≠ []
  ∧ weights_usable (item_weights Counter.fpow Demo.items) = true
  ∧ build_clusters Demo.items (rng_seed 42)
    = Ret ((Demo.clusters, Demo.cluster_weights), 48%nat)
  ∧ assemble 20 Demo.items Demo.clusters Demo.cluster_weights
      (item_weights Counter.fpow Demo.items) 3 48%nat
    = Ret (Demo.final, 87%nat)
  ∧ ∀ tx, tx ∈ transactions Demo.final →
      2 ≤ len tx ≤ Z.min (len Demo.items) 20 ∧ (5 < len Demo.items → 3 ≤ len tx).
Proof.
  assert (NoDup Demo.items) as Hnd by (apply (bool_decide_unpack _); by vm_compute).
  assert (Demo.items ≠ []) as Hne by done.
  assert (weights_usable (item_weights Counter.fpow Demo.items) = true) as Hw
    by by vm_compute.
  assert (build_clusters Demo.items (rng_seed 42)
          = Ret ((Demo.clusters, Demo.cluster_weights), 48%nat)) as Hb by by vm_compute.
  assert (assemble 20 Demo.items Demo.clusters Demo.cluster_weights
            (item_weights Counter.fpow Demo.items) 3 48%nat
          = Ret (Demo.final, 87%nat)) as Hrun by by vm_compute.
  split; [exact Hnd|]. split; [exact Hne|]. split; [exact Hw|]. split; [exact Hb|].
  split; [exact Hrun|].
  exact (dataset_transaction_lengths Counter.fpow Demo.items 3 20 (rng_seed 42)
           Demo.clusters Demo.cluster_weights 48%nat Demo.final 87%nat
           Hnd Hne Hw Hb Hrun).
Defined.

Lemma small_universe_transaction_witness :
  let items := ["a"; "b"; "c"] in
  let w := item_weights Counter.fpow items in
  NoDup items ∧ 2 ≤ len items ≤ 5 ∧ clusters_ok items [] []
  ∧ length w = length items ∧ weights_usable w = true
  ∧ (∀ fuel (s : nat) tx s',
       generate_transaction fuel items [] [] w s = Ret (tx, s') → tx = items)
  ∧ (fair items w →
     ∀ s : nat, ∃ fuel s', generate_transaction fuel items [] [] w s = Ret (items, s')).
Proof.
  intros items w.
  assert (NoDup items) as Hnd by (apply (bool_decide_unpack _); by vm_compute).
  assert (2 ≤ len items ≤ 5) as Hn by (by vm_compute).
  assert (clusters_ok items [] []) as Hcs.
  { apply (build_clusters_ok items (rng_seed 42) _ _ 42%nat Hnd). by vm_compute. }
  assert (length w = length items) as Hlen by reflexivity.
  assert (weights_usable w = true) as Hw by by vm_compute.
  split; [exact Hnd|]. split; [exact Hn|]. split; [exact Hcs|]. split; [exact Hlen|].
  split; [exact Hw|].
  exact (small_universe_transaction items [] [] w Hnd Hn Hcs Hlen Hw).
Defined.

Lemma small_universe_run_witness :
  let fs : filesystem := ∅ in
  let items := load_items fs "a b c" in
  Text.py_int "5" = Some 5 ∧ 1 ≤ 5 ∧ 2 ≤ len items ≤ 5
  ∧ weights_usable (item_weights Counter.fpow items) = true
  ∧ (∀ fuel o,
       main Counter.fpow fuel fs ["gen"; "a b c"; "5"; "out.txt"] = Ret o →
       o = Outcome 0 ((if 1 <? 5 then [warning_msg 1 5] else []) ++ [wrote_msg 1 "out.txt"])
             (<["out.txt" := Text.join " " items +:+ newline]> fs))
  ∧ (fair items (item_weights Counter.fpow items) →
     ∃ fuel o, main Counter.fpow fuel fs ["gen"; "a b c"; "5"; "out.txt"] = Ret o).
Proof.
  intros fs items.
  assert (Text.py_int "5" = Some 5) as Hcount by reflexivity.
  assert (1 ≤ 5) as HN by lia.
  assert (2 ≤ len items ≤ 5) as Hn by (by vm_compute).
  assert (weights_usable (item_weights Counter.fpow items) = true) as Hw
    by by vm_compute.
  split; [exact Hcount|]. split; [exact HN|]. split; [exact Hn|]. split; [exact Hw|].
  exact (small_universe_run Counter.fpow fs "gen" "a b c" "5" "out.txt" 5
           Hcount HN Hn Hw).
Defined.

Lemma nonpositive_count_run_witness :
  let fs : filesystem := ∅ in
  Text.py_int "-2" = Some (-2) ∧ -2 ≤ 0 ∧ load_items fs Demo.spec ≠ []
  ∧ main Counter.fpow 0 fs ["gen"; Demo.spec; "-2"; "out.txt"]
    = Ret (Outcome 0 [wrote_msg 0 "out.txt"] (<["out.txt" := ""]> fs))
  ∧ ∀ clusters cw (s : nat),
      assemble 0 (load_items fs Demo.spec) clusters cw
        (item_weights Counter.fpow (load_items fs Demo.spec)) (-2) s
      = Ret (Assembly ∅ [] 0, s).
Proof.
  intros fs.
  assert (Text.py_int "-2" = Some (-2)) as Hcount by reflexivity.
  assert (-2 ≤ 0) as HN by lia.
  assert (load_items fs Demo.spec ≠ []) as Hitems by by vm_compute.
  split; [exact Hcount|]. split; [exact HN|]. split; [exact Hitems|].
  exact (nonpositive_count_run Counter.fpow 0 fs "gen" Demo.spec "-2" "out.txt" (-2)
           Hcount HN Hitems).
Defined.


Lemma output_reloads_witness :
  let fs : filesystem := ∅ in
  let o := finish fs 3 "out.txt" Demo.dataset in
  Text.py_int "3" = Some 3 ∧ load_items fs Demo.spec ≠ []
  ∧ main Counter.fpow 20 fs Demo.argv = Ret o
  ∧ ∃ txs, files o !! "out.txt" = Some (serialize txs)
      ∧ Text.split (serialize txs) = concat txs
      ∧ load_items (files o) "out.txt" = first_seen (concat txs)
      ∧ ∀ x, x ∈ load_items (files o) "out.txt" → x ∈ load_items fs Demo.spec.
Proof.
  intros fs o.
  assert (Text.py_int "3" = Some 3) as Hcount by reflexivity.
  assert (load_items fs Demo.spec ≠ []) as Hitems by by vm_compute.
  assert (main Counter.fpow 20 fs Demo.argv = Ret o) as Hrun by by vm_compute.
  split; [exact Hcount|]. split; [exact Hitems|]. split; [exact Hrun|].
  exact (output_reloads Counter.fpow 20 fs "generate_transactions.py" Demo.spec
           "3" "out.txt" 3 o Hcount Hitems Hrun).
Defined.



Lemma conversion_needs_every_label_witness :
  let m : gmap string nat := {["C" := 0%nat]} in
  m ≠ ∅
  ∧ match (Convert.convert_to_gspan_format Sample.graphs "out.gspan" (Some m) ∅).1 with
    | Convert.Done _ => covers m Sample.graphs
    | Convert.KeyError label _ =>
        m !! label = None ∧ ∃ g, g ∈ Sample.graphs ∧ label ∈ Convert.graph_nodes g
    end
  ∧ match (Convert.convert_to_fsg_format Sample.graphs "out.gspan" (Some m) ∅).1 with
    | Convert.Done _ => covers m Sample.graphs
    | Convert.KeyError label _ =>
        m !! label = None ∧ ∃ g, g ∈ Sample.graphs ∧ label ∈ Convert.graph_nodes g
    end.
Proof.
  intros m.
  assert (m ≠ ∅) as Hne by (apply (bool_decide_unpack _); by vm_compute).
  split; [exact Hne|].
  exact (conversion_needs_every_label Sample.graphs "out.gspan" m ∅ Hne).
Defined.


Lemma parser_terminates_witness :
  Sample.yeast_file !! "yeast.txt" = Some (yeast_text Sample.graphs)
  ∧ (length (Lines.readlines (yeast_text Sample.graphs)) ≤ 20)%nat
  ∧ Convert.parse_yeast_dataset 20 Sample.yeast_file "yeast.txt" ≠ Convert.Opened OutOfFuel
  ∧ Convert.parse_yeast_dataset 20 Sample.yeast_file "yeast.txt"
    = Convert.parse_yeast_dataset (length (Lines.readlines (yeast_text Sample.graphs)))
        Sample.yeast_file "yeast.txt".
Proof.
  assert (Sample.yeast_file !! "yeast.txt" = Some (yeast_text Sample.graphs)) as Htext
    by reflexivity.
  assert (length (Lines.readlines (yeast_text Sample.graphs)) ≤ 20)%nat as Hfuel
    by (apply Nat.leb_le; by vm_compute).
  split; [exact Htext|]. split; [exact Hfuel|].
  exact (parser_terminates 20 Sample.yeast_file "yeast.txt" _ Htext Hfuel).
Defined.

Lemma no_graphs_iff_no_header_witness :
  let fs : filesystem := {["notes.txt" := Sample.notes]} in
  fs !! "notes.txt" = Some Sample.notes
  ∧ (length (Lines.readlines Sample.notes) ≤ 3)%nat
  ∧ (Convert.parse_yeast_dataset 3 fs "notes.txt" = Convert.Opened (Ret [])
     ↔ Forall (λ l, header_line l = false) (Lines.readlines Sample.notes)).
Proof.
  intros fs.
  assert (fs !! "notes.txt" = Some Sample.notes) as Htext by reflexivity.
  assert (length (Lines.readlines Sample.notes) ≤ 3)%nat as Hfuel
    by (apply Nat.leb_le; by vm_compute).
  split; [exact Htext|]. split; [exact Hfuel|].
  exact (no_graphs_iff_no_header 3 fs "notes.txt" Sample.notes Htext Hfuel).
Defined.

Lemma missing_node_count_witness :
  let fs : filesystem := {["bad.txt" := Sample.no_count]} in
  let pre := ["junk" +:+ newline] in
  let h := "#g" +:+ newline in
  let blanks := [newline] in
  let rest := ["abc" +:+ newline] in
  fs !! "bad.txt" = Some Sample.no_count
  ∧ Lines.readlines Sample.no_count = pre ++ [h] ++ blanks ++ rest
  ∧ Forall (λ l, header_line l = false) pre ∧ header_line h = true
  ∧ Forall (λ l, Text.strip l = "") blanks
  ∧ (Text.strip ("abc" +:+ newline) ≠ ""
     ∧ Text.py_int (Text.strip ("abc" +:+ newline)) = None)
  ∧ (length (Lines.readlines Sample.no_count) ≤ 4)%nat
  ∧ Convert.parse_yeast_dataset 4 fs "bad.txt" = Convert.Opened (Exc ValueError).
Proof.
  intros fs pre h blanks rest.
  assert (fs !! "bad.txt" = Some Sample.no_count) as Htext by reflexivity.
  assert (Lines.readlines Sample.no_count = pre ++ [h] ++ blanks ++ rest) as Hlines
    by by vm_compute.
  assert (Forall (λ l, header_line l = false) pre) as Hpre
    by (repeat constructor).
  assert (header_line h = true) as Hh by reflexivity.
  assert (Forall (λ l, Text.strip l = "") blanks) as Hblanks by (repeat constructor).
  assert (Text.strip ("abc" +:+ newline) ≠ ""
          ∧ Text.py_int (Text.strip ("abc" +:+ newline)) = None) as Hrest
    by (split; [by vm_compute|reflexivity]).
  assert (length (Lines.readlines Sample.no_count) ≤ 4)%nat as Hfuel
    by (apply Nat.leb_le; by vm_compute).
  split; [exact Htext|]. split; [exact Hlines|]. split; [exact Hpre|].
  split; [exact Hh|]. split; [exact Hblanks|]. split; [exact Hrest|].
  split; [exact Hfuel|].
  exact (missing_node_count 4 fs "bad.txt" Sample.no_count pre h blanks rest
           Htext Hlines Hpre Hh Hblanks Hrest Hfuel).
Defined.

Lemma yeast_round_trip_witness :
  Forall clean_graph Sample.graphs
  ∧ Sample.yeast_file !! "yeast.txt" = Some (yeast_text Sample.graphs)
  ∧ (length Sample.graphs ≤ 2)%nat
  ∧ Convert.parse_yeast_dataset 2 Sample.yeast_file "yeast.txt"
    = Convert.Opened (Ret Sample.graphs).
Proof.
  assert (Forall clean_graph Sample.graphs) as Hclean.
  { repeat first [apply Forall_nil_2 | apply Forall_cons_2 | split]; reflexivity. }
  assert (Sample.yeast_file !! "yeast.txt" = Some (yeast_text Sample.graphs)) as Htext
    by reflexivity.
  assert (length Sample.graphs ≤ 2)%nat as Hfuel by (simpl; lia).
  split; [exact Hclean|]. split; [exact Htext|]. split; [exact Hfuel|].
  exact (yeast_round_trip 2 Sample.yeast_file "yeast.txt" Sample.graphs
           Hclean Htext Hfuel).
Defined.

Lemma truncated_node_list_witness :
  let fs : filesystem := {["cut.txt" := Sample.truncated]} in
  let h := "#g" +:+ newline in
  let c := "3" +:+ newline in
  let rest := ["A" +:+ newline] in
  fs !! "cut.txt" = Some Sample.truncated
  ∧ Lines.readlines Sample.truncated = [] ++ [h; c] ++ rest
  ∧ Forall (λ l, header_line l = false) [] ∧ header_line h = true
  ∧ Text.py_int (Text.strip c) = Some 3 ∧ len rest ≤ 3
  ∧ (length (Lines.readlines Sample.truncated) ≤ 3)%nat
  ∧ Convert.parse_yeast_dataset 3 fs "cut.txt" = Convert.Opened (Exc IndexError).
Proof.
  intros fs h c rest.
  assert (fs !! "cut.txt" = Some Sample.truncated) as Htext by reflexivity.
  assert (Lines.readlines Sample.truncated = [] ++ [h; c] ++ rest) as Hlines
    by by vm_compute.
  assert (Forall (λ l, header_line l = false) []) as Hpre by constructor.
  assert (header_line h = true) as Hh by reflexivity.
  assert (Text.py_int (Text.strip c) = Some 3) as Hc by reflexivity.
  assert (len rest ≤ 3) as Hn by (by vm_compute).
  assert (length (Lines.readlines Sample.truncated) ≤ 3)%nat as Hfuel
    by (apply Nat.leb_le; by vm_compute).
  split; [exact Htext|]. split; [exact Hlines|]. split; [exact Hpre|].
  split; [exact Hh|]. split; [exact Hc|]. split; [exact Hn|]. split; [exact Hfuel|].
  exact (truncated_node_list 3 fs "cut.txt" Sample.truncated [] h c rest 3
           Htext Hlines Hpre Hh Hc Hn Hfuel).
Defined.
